(** * agentevo: provider dispatch and execution engine

    A shallow embedding of the evaluation providers of
    [packages/core/src/evaluation/providers]:

    - [preread.ts]: attachment normalisation, guideline classification and
      prompt-document assembly;
    - [codex.ts]: the process-based provider (environment validation,
      workspace mirroring, the process runner, response extraction);
    - [vscode.ts]: the session-based provider (single and batch dispatch);

    and of [packages/core/src/evaluation]:

    - [file-utils.ts]: the walk up to the repository root, the search
      roots and the resolution of file references;
    - the file-reference validator ([validateFileReferences]).

    Conventions.  TypeScript strings are modelled by [string]; the model
    is exact on ASCII text (a character stands for one code unit).  A value
    of type [T | undefined] is an [option T].  A function that may [throw]
    returns a [Result]; an [async] function that touches the file system
    threads a [World] explicitly.  Functions of Node.js and of modules that
    are not part of the providers ([path], [JSON.parse], [isGuidelineFile],
    the [subagent] package, [parse] of the [yaml] package) are parameters of
    the development. *)

From Stdlib Require Import String Ascii ZArith DecimalString.
From stdpp Require Import base option list gmap strings.

Set Default Proof Using "Type".

(* ================================================================== *)
(** ** Errors and results *)

(** [new Error(message)]; [code] is the [code] of a
    [NodeJS.ErrnoException] when there is one. *)
Record Error : Type := mkError { message : string; code : option string }.

Definition newError (msg : string) : Error := mkError msg None.

Inductive Result (A : Type) : Type :=
| Ok (value : A)
| Throw (error : Error).
Arguments Ok {A} value.
Arguments Throw {A} error.

(* ================================================================== *)
(** ** String primitives of the host language *)

Module JsString.

(** White space removed by [String.prototype.trim], within ASCII:
    TAB, LF, VT, FF, CR and SPACE. *)
Definition isWhiteSpace (c : ascii) : bool :=
  let n := nat_of_ascii c in
  ((9 <=? n) && (n <=? 13)) || (n =? 32).

Fixpoint trimStart (s : string) : string :=
  match s with
  | EmptyString => EmptyString
  | String c rest => if isWhiteSpace c then trimStart rest else s
  end.

Fixpoint trimEnd (s : string) : string :=
  match s with
  | EmptyString => EmptyString
  | String c rest =>
      match trimEnd rest with
      | EmptyString => if isWhiteSpace c then EmptyString else String c EmptyString
      | kept => String c kept
      end
  end.

Definition trim (s : string) : string := trimEnd (trimStart s).

(** [s.slice(0, n)] for [0 <= n]. *)
Fixpoint take (n : nat) (s : string) : string :=
  match n, s with
  | S m, String c rest => String c (take m rest)
  | _, _ => EmptyString
  end.

(** [s.slice(n)] for [0 <= n]. *)
Fixpoint drop (n : nat) (s : string) : string :=
  match n, s with
  | S m, String _ rest => drop m rest
  | _, _ => s
  end.

(** [s.lastIndexOf(c)] for a one-character needle: the index of the
    last occurrence, or [-1]. *)
Fixpoint lastIndexOf (c : ascii) (s : string) : Z :=
  match s with
  | EmptyString => (-1)%Z
  | String a rest =>
      let later := lastIndexOf c rest in
      if (0 <=? later)%Z then (later + 1)%Z
      else if Ascii.eqb a c then 0%Z else (-1)%Z
  end.

(** [parts.join(sep)]. *)
Fixpoint join (sep : string) (parts : list string) : string :=
  match parts with
  | [] => EmptyString
  | [p] => p
  | p :: rest => p +:+ sep +:+ join sep rest
  end.

(** [s.split(sep)] for a one-character separator. *)
Fixpoint split (sep : ascii) (s : string) : list string :=
  match s with
  | EmptyString => [EmptyString]
  | String c rest =>
      if Ascii.eqb c sep then EmptyString :: split sep rest
      else match split sep rest with
           | [] => [String c EmptyString]
           | piece :: pieces => String c piece :: pieces
           end
  end.

(** [s.includes(needle)]. *)
Fixpoint includes (needle s : string) : bool :=
  String.prefix needle s
  || match s with
     | EmptyString => false
     | String _ rest => includes needle rest
     end.

(** Template-literal rendering of a non-negative integer. *)
Definition ofNat (n : nat) : string := NilEmpty.string_of_uint (Nat.to_uint n).

(** Template-literal rendering of an integer. *)
Definition ofZ (z : Z) : string := NilEmpty.string_of_int (Z.to_int z).

Definition nonEmpty (s : string) : bool :=
  match s with EmptyString => false | String _ _ => true end.

(** Whether the character [c] occurs in [s]. *)
Fixpoint occurs (c : ascii) (s : string) : bool :=
  match s with
  | EmptyString => false
  | String a rest => Ascii.eqb a c || occurs c rest
  end.

(** The line feed character and the one-character string ["\n"]. *)
Definition LF : ascii := "010".
Definition nl : string := String LF EmptyString.

End JsString.

(* ================================================================== *)
(** ** Parsed JSON documents *)

(** The values [JSON.parse] produces.  An object is the list of its own
    properties; numbers carry no information the providers look at. *)
#[local] Unset Elimination Schemes.
Inductive JsonValue : Type :=
| JNull
| JBool (b : bool)
| JNumber (n : Z)
| JString (s : string)
| JArray (items : list JsonValue)
| JObject (fields : list (string * JsonValue)).
#[local] Set Elimination Schemes.

Module Json.

Fixpoint assoc (key : string) (fields : list (string * JsonValue)) : option JsonValue :=
  match fields with
  | [] => None
  | (k, v) :: rest => if String.eqb k key then Some v else assoc key rest
  end.

(** [(value as Record<string, unknown>)[key]] for a value that passed
    [typeof value === "object"] and is not [null]; an array has none of
    the property names the providers read. *)
Definition prop (key : string) (value : JsonValue) : option JsonValue :=
  match value with
  | JObject fields => assoc key fields
  | _ => None
  end.

(** [value && typeof value === "object"]: objects and arrays. *)
Definition isObjectLike (value : JsonValue) : bool :=
  match value with
  | JArray _ | JObject _ => true
  | _ => false
  end.

(** [value === text], for a string [text]. *)
Definition isTheString (text : string) (value : option JsonValue) : bool :=
  match value with
  | Some (JString s) => String.eqb s text
  | _ => false
  end.

(** [key in value], for a value that [isObjectLike]. *)
Definition hasProp (key : string) (value : JsonValue) : bool :=
  match prop key value with Some _ => true | None => false end.

End Json.

(* ================================================================== *)
(** ** codex.ts: response extraction *)

(** The callback of [value.map(...)] in [flattenContent]. *)
Definition flattenSegment (segment : JsonValue) : option string :=
  match segment with
  | JString s => Some s
  | _ =>
      if Json.isObjectLike segment && Json.hasProp "text" segment then
        match Json.prop "text" segment with
        | Some (JString text) => Some text
        | _ => None
        end
      else None
  end.

(** The predicate of [.filter(...)] in [flattenContent]:
    [typeof part === "string" && part.length > 0]. *)
Definition isNonEmptyPart (part : option string) : bool :=
  match part with
  | Some s => JsString.nonEmpty s
  | None => false
  end.

(** The strings of an array of [string | undefined] all of whose
    entries are strings. *)
Definition partTexts (parts : list (option string)) : list string :=
  omap id parts.

Definition flattenContent (value : option JsonValue) : option string :=
  match value with
  | Some (JString s) => Some s
  | Some (JArray items) =>
      let parts := partTexts (filter (fun p => isNonEmptyPart p = true) (map flattenSegment items)) in
      if (0 <? length parts)%nat then Some (JsString.join (" " +:+ JsString.nl) parts)
      else None
  | Some v =>
      if Json.isObjectLike v && Json.hasProp "text" v then
        match Json.prop "text" v with
        | Some (JString text) => Some text
        | _ => None
        end
      else None
  | None => None
  end.

(** [if (flattened)]: a string that is not empty. *)
Definition truthy (flattened : option string) : bool :=
  match flattened with
  | Some s => JsString.nonEmpty s
  | None => false
  end.

Definition missingAssistantMessage : Error :=
  newError "Codex CLI JSON response did not include an assistant message".

(** The [for] loop of [extractAssistantText] started at [index = n - 1];
    [Some text] when the loop returns [text], [None] when it runs to its
    end. *)
Fixpoint scanMessages (messages : list JsonValue) (n : nat) : option string :=
  match n with
  | O => None
  | S index =>
      match messages !! index with
      | None => scanMessages messages index
      | Some entry =>
          if negb (Json.isObjectLike entry) then scanMessages messages index
          else
            let role := Json.prop "role" entry in
            if negb (Json.isTheString "assistant" role) then scanMessages messages index
            else
              let content := Json.prop "content" entry in
              let flattened := flattenContent content in
              if truthy flattened then flattened
              else scanMessages messages index
      end
  end.

Definition extractAssistantText (parsed : JsonValue) : Result string :=
  if negb (Json.isObjectLike parsed) then Throw missingAssistantMessage
  else
    let fromMessages :=
      match Json.prop "messages" parsed with
      | Some (JArray messages) => scanMessages messages (length messages)
      | _ => None
      end in
    match fromMessages with
    | Some text => Ok text
    | None =>
        let fromResponse :=
          match Json.prop "response" parsed with
          | Some response =>
              if Json.isObjectLike response then
                let flattened := flattenContent (Json.prop "content" response) in
                if truthy flattened then flattened else None
              else None
          | None => None
          end in
        match fromResponse with
        | Some text => Ok text
        | None =>
            let flattenedOutput := flattenContent (Json.prop "output" parsed) in
            match flattenedOutput with
            | Some text => if truthy flattenedOutput then Ok text else Throw missingAssistantMessage
            | None => Throw missingAssistantMessage
            end
        end
    end.

(** [JSON.parse]: [None] when it throws a [SyntaxError]. *)
Class JsonModule : Type := { JSON_parse : string -> option JsonValue }.

Definition noOutputError : Error :=
  newError "Codex CLI produced no output in --json mode".

(** The character U+2026 of the source, by its UTF-8 bytes. *)
Definition ellipsis : string :=
  String (ascii_of_nat 226) (String (ascii_of_nat 128) (String (ascii_of_nat 166) EmptyString)).

Definition invalidJsonError (trimmed : string) : Error :=
  let preview := JsString.take 200 trimmed in
  newError ("Codex CLI emitted invalid JSON: " +:+ preview
            +:+ (if (200 <? String.length trimmed)%nat then ellipsis else "")).

Definition parseCodexJson `{JsonModule} (output : string) : Result JsonValue :=
  let trimmed := JsString.trim output in
  if (String.length trimmed =? 0)%nat then Throw noOutputError
  else
    match JSON_parse trimmed with
    | Some parsed => Ok parsed
    | None =>
        let lastBrace := JsString.lastIndexOf "{" trimmed in
        let retried :=
          if (0 <=? lastBrace)%Z then
            let candidate := JsString.drop (Z.to_nat lastBrace) trimmed in
            JSON_parse candidate
          else None in
        match retried with
        | Some parsed => Ok parsed
        | None => Throw (invalidJsonError trimmed)
        end
    end.

Definition pickDetail (stderr stdout : string) : option string :=
  let errorText := JsString.trim stderr in
  if (0 <? String.length errorText)%nat then Some errorText
  else
    let stdoutText := JsString.trim stdout in
    if (0 <? String.length stdoutText)%nat then Some stdoutText else None.

(** [Math.ceil(timeoutMs / 1000)] for a positive integer number of
    milliseconds. *)
Definition formatTimeoutSuffix (timeoutMs : option Z) : string :=
  match timeoutMs with
  | None => ""
  | Some ms =>
      if (ms <=? 0)%Z then ""
      else
        let seconds := ((ms + 999) / 1000)%Z in
        " after " +:+ JsString.ofZ seconds +:+ "s"
  end.

(* ================================================================== *)
(** ** Host interfaces *)

(** The functions of [node:path] the providers call.  [path_join] is the
    two-argument use [path.join(a, b)]; [path_sep] is [path.sep]. *)
Class PathModule : Type := {
  path_resolve : string -> string;
  path_basename : string -> string;
  path_join : string -> string -> string;
  path_isAbsolute : string -> bool;
  path_sep : ascii
}.

(** [isGuidelineFile] of [../yaml-parser.js]: a forward-slash path and
    the optional pattern list. *)
Class YamlParser : Type := {
  isGuidelineFile : string -> option (list string) -> bool
}.

(* ================================================================== *)
(** ** Requests *)

Record AbortSignal : Type := { aborted : bool }.

(** The fields of [ProviderRequest] the providers read. *)
Record ProviderRequest : Type := {
  prompt : string;
  attachments : option (list string);
  guideline_patterns : option (list string);
  signal : option AbortSignal
}.

(** [value !== undefined], for a value used as a condition whose
    defined values are all truthy (an array, an object). *)
Definition isDefined {A} (value : option A) : bool :=
  match value with Some _ => true | None => false end.

(** [request.signal?.aborted], as a condition. *)
Definition signalAborted (request : ProviderRequest) : bool :=
  match signal request with
  | Some s => aborted s
  | None => false
  end.

(* ================================================================== *)
(** ** preread.ts *)

(** A [Map<string, string>] as the list of its entries in insertion
    order, which is the order [values()] iterates in. *)
Module InsertionMap.

Definition t : Type := list (string * string).

Definition empty : t := [].

Definition has (key : string) (m : t) : bool :=
  existsb (fun entry => String.eqb (fst entry) key) m.

Fixpoint set (key value : string) (m : t) : t :=
  match m with
  | [] => [(key, value)]
  | (k, v) :: rest =>
      if String.eqb k key then (k, value) :: rest
      else (k, v) :: set key value rest
  end.

Definition values (m : t) : list string := map snd m.

(** Every key is its own value, as in the maps of [preread.ts]. *)
Definition diagonal (m : t) : Prop := Forall (fun entry => fst entry = snd entry) m.

End InsertionMap.

Record PromptDocumentOptions : Type := {
  guidelinePatterns : option (list string);
  guidelineOverrides : option (gset string)
}.

(** [absolutePath.replace(/\\/g, "/")]. *)
Fixpoint backslashesToSlashes (s : string) : string :=
  match s with
  | EmptyString => EmptyString
  | String c rest =>
      String (if Ascii.eqb c "\" then "/"%char else c) (backslashesToSlashes rest)
  end.

Definition isAsciiLetter (c : ascii) : bool :=
  let n := nat_of_ascii c in
  ((65 <=? n) && (n <=? 90)) || ((97 <=? n) && (n <=? 122)).

(** [/^[a-zA-Z]:\//.test(s)]. *)
Definition startsWithDrive (s : string) : bool :=
  match s with
  | String d (String ":" (String "/" _)) => isAsciiLetter d
  | _ => false
  end.

Section Preread.
Context `{PathModule} `{YamlParser}.

(** [!attachments || attachments.length === 0]. *)
Definition noAttachments (attachments : option (list string)) : bool :=
  match attachments with
  | None | Some [] => true
  | Some (_ :: _) => false
  end.

Definition listOf (attachments : option (list string)) : list string :=
  match attachments with
  | Some list => list
  | None => []
  end.

(** One iteration of the loops of [normalizeAttachments] and
    [collectAttachmentFiles]. *)
Definition addResolved (unique : InsertionMap.t) (attachment : string) : InsertionMap.t :=
  let absolutePath := path_resolve attachment in
  if negb (InsertionMap.has absolutePath unique)
  then InsertionMap.set absolutePath absolutePath unique
  else unique.

Definition normalizeAttachments (attachments : option (list string)) : option (list string) :=
  if noAttachments attachments then None
  else Some (InsertionMap.values (foldl addResolved InsertionMap.empty (listOf attachments))).

(** [overrides?.has(absolutePath)], as a condition. *)
Definition overridesHas (overrides : option (gset string)) (absolutePath : string) : bool :=
  match overrides with
  | Some set => bool_decide (absolutePath ∈ set)
  | None => false
  end.

(** The condition under which the loop of [collectGuidelineFiles]
    keeps a resolved path: it is in the override set, or its
    forward-slash form matches the patterns. *)
Definition classifiedGuideline (guidelinePatterns : option (list string))
    (overrides : option (gset string)) (absolutePath : string) : bool :=
  overridesHas overrides absolutePath
  || isGuidelineFile (JsString.join "/" (JsString.split path_sep absolutePath)) guidelinePatterns.

(** One iteration of the loop of [collectGuidelineFiles]. *)
Definition addGuideline (guidelinePatterns : option (list string))
    (overrides : option (gset string))
    (unique : InsertionMap.t) (attachment : string) : InsertionMap.t :=
  let absolutePath := path_resolve attachment in
  if overridesHas overrides absolutePath then
    if negb (InsertionMap.has absolutePath unique)
    then InsertionMap.set absolutePath absolutePath unique
    else unique
  else
    let normalized := JsString.join "/" (JsString.split path_sep absolutePath) in
    if isGuidelineFile normalized guidelinePatterns then
      if negb (InsertionMap.has absolutePath unique)
      then InsertionMap.set absolutePath absolutePath unique
      else unique
    else unique.

Definition collectGuidelineFiles (attachments : option (list string))
    (guidelinePatterns : option (list string))
    (overrides : option (gset string)) : list string :=
  if noAttachments attachments then []
  else InsertionMap.values
         (foldl (addGuideline guidelinePatterns overrides) InsertionMap.empty (listOf attachments)).

Definition collectAttachmentFiles (attachments : option (list string)) : list string :=
  if noAttachments attachments then []
  else InsertionMap.values (foldl addResolved InsertionMap.empty (listOf attachments)).

Definition pathToFileUri (filePath : string) : string :=
  let absolutePath := if path_isAbsolute filePath then filePath else path_resolve filePath in
  let normalizedPath := backslashesToSlashes absolutePath in
  if startsWithDrive normalizedPath then "file:///" +:+ normalizedPath
  else "file://" +:+ normalizedPath.

(** [buildList] inside [buildMandatoryPrereadBlock]. *)
Definition buildList (files : list string) : list string :=
  map (fun absolutePath =>
         let fileName := path_basename absolutePath in
         let fileUri := pathToFileUri absolutePath in
         "* [" +:+ fileName +:+ "](" +:+ fileUri +:+ ")") files.

Definition buildMandatoryPrereadBlock (guidelineFiles attachmentFiles : list string) : string :=
  if (length guidelineFiles =? 0)%nat && (length attachmentFiles =? 0)%nat then ""
  else
    let sections0 : list string := [] in
    let sections1 :=
      if (0 <? length guidelineFiles)%nat then
        sections0 ++ ["Read all guideline files:" +:+ JsString.nl
                      +:+ JsString.join JsString.nl (buildList guidelineFiles) +:+ "."]
      else sections0 in
    let sections2 :=
      if (0 <? length attachmentFiles)%nat then
        sections1 ++ ["Read all attachment files:" +:+ JsString.nl
                      +:+ JsString.join JsString.nl (buildList attachmentFiles) +:+ "."]
      else sections1 in
    let sections3 :=
      sections2 ++ ["If any file is missing, fail with ERROR: missing-file <filename> and stop.";
                    "Then apply system_instructions on the user query below."] in
    JsString.join JsString.nl sections3.

(** [options?.guidelinePatterns ?? request.guideline_patterns]. *)
Definition effectivePatterns (request : ProviderRequest)
    (options : option PromptDocumentOptions) : option (list string) :=
  match options with
  | Some o =>
      match guidelinePatterns o with
      | Some patterns => Some patterns
      | None => guideline_patterns request
      end
  | None => guideline_patterns request
  end.

(** [options?.guidelineOverrides]. *)
Definition effectiveOverrides (options : option PromptDocumentOptions) : option (gset string) :=
  match options with
  | Some o => guidelineOverrides o
  | None => None
  end.

(** The two lists [buildPromptDocument] hands to
    [buildMandatoryPrereadBlock]: [guidelineFiles] and
    [nonGuidelineAttachments]. *)
Definition prereadLists (request : ProviderRequest)
    (attachments : option (list string))
    (options : option PromptDocumentOptions) : list string * list string :=
  let guidelineFiles :=
    collectGuidelineFiles attachments (effectivePatterns request options)
                          (effectiveOverrides options) in
  let attachmentFiles := collectAttachmentFiles attachments in
  let nonGuidelineAttachments :=
    filter (fun file => file ∉ guidelineFiles) attachmentFiles in
  (guidelineFiles, nonGuidelineAttachments).

Definition buildPromptDocument (request : ProviderRequest)
    (attachments : option (list string))
    (options : option PromptDocumentOptions) : string :=
  let parts0 : list string := [] in
  let '(guidelineFiles, nonGuidelineAttachments) := prereadLists request attachments options in
  let prereadBlock := buildMandatoryPrereadBlock guidelineFiles nonGuidelineAttachments in
  let parts1 :=
    if (0 <? String.length prereadBlock)%nat then parts0 ++ [JsString.nl; prereadBlock]
    else parts0 in
  let parts2 :=
    parts1 ++ [JsString.nl +:+ "[[ ## user_query ## ]]" +:+ JsString.nl;
               JsString.trim (prompt request)] in
  JsString.trim (JsString.join JsString.nl parts2).

End Preread.

(* ================================================================== *)
(** ** The world outside the providers *)

(** What the providers can observe of the machine: regular files by
    absolute path with their UTF-8 content, the environment variables,
    and the outcome of running a shell command ([None] when the command
    fails).  [readLog] records the arguments of [readFile], oldest first;
    [tempCount] counts the directories [mkdtemp] has made. *)
Record World : Type := {
  files : gmap string string;
  env : gmap string string;
  exec : string -> option string;
  readLog : list string;
  tempCount : nat
}.

Definition withFiles (fs : gmap string string) (w : World) : World :=
  {| files := fs; env := env w; exec := exec w;
     readLog := readLog w; tempCount := tempCount w |}.

(** [node:os] and [process.platform]. *)
Class OsModule : Type := {
  homedir : string;
  tmpdir : string;
  platform : string
}.

(** Computations that read and change the world and may throw. *)
Definition IO (A : Type) : Type := World -> Result A * World.

Definition IO_ret {A} (a : A) : IO A := fun w => (Ok a, w).

Definition IO_throw {A} (e : Error) : IO A := fun w => (Throw e, w).

Definition IO_bind {A B} (c : IO A) (k : A -> IO B) : IO B :=
  fun w =>
    match c w with
    | (Ok a, w') => k a w'
    | (Throw e, w') => (Throw e, w')
    end.

(** [try { body } finally { cleanup }] for a cleanup that does not throw. *)
Definition IO_finally {A} (body : IO A) (cleanup : World -> World) : IO A :=
  fun w => let '(r, w') := body w in (r, cleanup w').

(** [try { body } catch (error) { handler(error) }]. *)
Definition IO_catch {A} (body : IO A) (handler : Error -> IO A) : IO A :=
  fun w =>
    match body w with
    | (Ok a, w') => (Ok a, w')
    | (Throw e, w') => handler e w'
    end.

Definition IO_lift {A} (r : Result A) : IO A := fun w => (r, w).

Declare Scope io_scope.
Delimit Scope io_scope with io.
Notation "x <- c ;; k" := (IO_bind c (fun x => k))
  (at level 100, c at next level, right associativity) : io_scope.
Notation "c ;;; k" := (IO_bind c (fun _ => k))
  (at level 100, right associativity) : io_scope.

Module Fs.

Definition enoent (syscall path : string) : Error :=
  mkError ("ENOENT: no such file or directory, " +:+ syscall +:+ " '" +:+ path +:+ "'")
          (Some "ENOENT").

(** [access(path, constants.F_OK)]. *)
Definition access (path : string) : IO unit :=
  fun w =>
    match files w !! path with
    | Some _ => (Ok tt, w)
    | None => (Throw (enoent "access" path), w)
    end.

(** [readFile(path, "utf8")]. *)
Definition readFile (path : string) : IO string :=
  fun w =>
    let w' := {| files := files w; env := env w; exec := exec w;
                 readLog := readLog w ++ [path]; tempCount := tempCount w |} in
    match files w !! path with
    | Some content => (Ok content, w')
    | None => (Throw (enoent "open" path), w')
    end.

(** [writeFile(path, content, "utf8")]. *)
Definition writeFile (path content : string) : IO unit :=
  fun w => (Ok tt, withFiles (<[path := content]> (files w)) w).

(** [copyFile(source, destination)]. *)
Definition copyFile (source destination : string) : IO unit :=
  fun w =>
    match files w !! source with
    | Some content => (Ok tt, withFiles (<[destination := content]> (files w)) w)
    | None => (Throw (enoent "copyfile" source), w)
    end.

(** [mkdir(path, { recursive: true })]: directories are not recorded. *)
Definition mkdir (path : string) : IO unit := IO_ret tt.

(** [mkdtemp(prefix)]: a directory name nobody has used yet. *)
Definition mkdtemp (prefix : string) : IO string :=
  fun w =>
    (Ok (prefix +:+ JsString.ofNat (tempCount w)),
     {| files := files w; env := env w; exec := exec w;
        readLog := readLog w; tempCount := S (tempCount w) |}).

(** Whether [path] is [root] or lies below it. *)
Definition isUnder `{PathModule} (root path : string) : bool :=
  String.eqb path root || String.prefix (root +:+ String path_sep EmptyString) path.

(** [rm(root, { recursive: true, force: true })]. *)
Definition rm `{PathModule} (root : string) (w : World) : World :=
  withFiles (filter (fun entry => isUnder root (fst entry) = false) (files w)) w.

End Fs.

(* ================================================================== *)
(** ** codex.ts: the process-based provider *)

Definition WORKSPACE_PREFIX : string := "agentv-codex-".
Definition PROMPT_FILENAME : string := "prompt.md".
Definition FILES_DIR : string := "files".

Record CodexRunOptions : Type := {
  run_executable : string;
  run_args : list string;
  run_cwd : string;
  run_prompt : string;
  run_timeoutMs : option Z;
  run_env : gmap string string;
  run_signal : option AbortSignal
}.

Record CodexRunResult : Type := {
  stdout : string;
  stderr : string;
  exitCode : Z;
  timedOut : option bool
}.

Definition CodexRunner : Type := CodexRunOptions -> IO CodexRunResult.

(** The fields of [CodexResolvedConfig] ([./targets.js]) the provider
    reads. *)
Record CodexResolvedConfig : Type := {
  executable : string;
  profile : option string;
  model : option string;
  approvalPreset : option string;
  cwd : option string;
  timeoutMs : option Z
}.

(** An answer with its diagnostic payload. *)
Record ProviderResponse (Raw : Type) : Type := {
  text : string;
  raw : Raw
}.
Arguments text {Raw} _.
Arguments raw {Raw} _.

Record CodexRaw : Type := {
  raw_response : JsonValue;
  raw_stdout : string;
  raw_stderr : string;
  raw_exitCode : Z;
  raw_args : list string;
  raw_executable : string;
  raw_promptFile : string;
  raw_workspace : string;
  raw_attachments : option (list string)
}.

(** The instance state of [CodexProvider].  [environmentCheck] is the
    stored promise, identified with the outcome it settles to.
    [validationRuns] is not a field of the class: it counts the calls of
    [validateEnvironment] on this instance. *)
Record CodexProvider : Type := {
  targetName : string;
  config : CodexResolvedConfig;
  runCodex : CodexRunner;
  environmentCheck : option (Result unit);
  resolvedExecutable : option string;
  validationRuns : nat
}.

Definition newCodexProvider (targetName : string) (config : CodexResolvedConfig)
    (runner : CodexRunner) : CodexProvider :=
  {| targetName := targetName; config := config; runCodex := runner;
     environmentCheck := None; resolvedExecutable := None; validationRuns := 0 |}.

(** A string option used as a condition: present and not empty. *)
Definition truthyString (s : option string) : bool :=
  match s with
  | Some v => JsString.nonEmpty v
  | None => false
  end.

(** [Boolean(value && value.trim().length > 0)]. *)
Definition presentAndNotBlank (value : option string) : bool :=
  match value with
  | Some v => JsString.nonEmpty v && (0 <? String.length (JsString.trim v))%nat
  | None => false
  end.

Definition missingCredentialsError : Error :=
  newError "Codex provider requires OPENAI_API_KEY or CODEX_API_KEY to be set before running evals".

Definition mirrorRecord : Type := list string * gset string * gmap string nat.

Section Codex.
Context `{PathModule} `{YamlParser} `{JsonModule} `{OsModule}.

Definition ensureFileExists (filePath msg : string) : IO unit :=
  IO_catch (Fs.access filePath)
           (fun _ => IO_throw (newError (msg +:+ ": " +:+ filePath))).

Definition resolveCodexConfigPath (override : option string) : string :=
  match override with
  | Some o =>
      if JsString.nonEmpty o && (0 <? String.length (JsString.trim o))%nat
      then path_resolve (JsString.trim o)
      else path_join (path_join homedir ".codex") "config"
  | None => path_join (path_join homedir ".codex") "config"
  end.

Definition notOnPathError (candidate : string) : Error :=
  newError ("Codex executable '" +:+ candidate +:+ "' was not found on PATH").

(** [stdout.split(/\r?\n/).map(trim).find(nonempty)]; the carriage
    return a split on LF leaves behind is white space for [trim]. *)
Definition firstNonEmptyLine (out : string) : option string :=
  List.find (fun line => (0 <? String.length line)%nat)
            (map JsString.trim (JsString.split JsString.LF out)).

Definition locateExecutable (candidate : string) : IO string :=
  let includesPathSeparator :=
    JsString.includes "/" candidate || JsString.includes "\" candidate in
  if includesPathSeparator then
    let resolved := if path_isAbsolute candidate then candidate else path_resolve candidate in
    (Fs.access resolved ;;; IO_ret resolved)%io
  else
    let locator := if String.eqb platform "win32" then "where" else "which" in
    fun w =>
      match exec w (locator +:+ " " +:+ candidate) with
      | Some out =>
          match firstNonEmptyLine out with
          | Some firstLine =>
              if JsString.nonEmpty firstLine then (Ok firstLine, w)
              else (Throw (notOnPathError candidate), w)
          | None => (Throw (notOnPathError candidate), w)
          end
      | None => (Throw (notOnPathError candidate), w)
      end.

(** The assignment [this.resolvedExecutable = path]. *)
Definition withResolvedExecutable (path : string) (this : CodexProvider) : CodexProvider :=
  {| targetName := targetName this; config := config this; runCodex := runCodex this;
     environmentCheck := environmentCheck this;
     resolvedExecutable := Some path;
     validationRuns := validationRuns this |}.

(** The assignment [this.environmentCheck = promise], for a promise that
    settles to [outcome]. *)
Definition withEnvironmentCheck (outcome : Result unit) (this : CodexProvider) : CodexProvider :=
  {| targetName := targetName this; config := config this; runCodex := runCodex this;
     environmentCheck := Some outcome;
     resolvedExecutable := resolvedExecutable this;
     validationRuns := validationRuns this |}.

(** One more call of [validateEnvironment]. *)
Definition countValidation (this : CodexProvider) : CodexProvider :=
  {| targetName := targetName this; config := config this; runCodex := runCodex this;
     environmentCheck := environmentCheck this;
     resolvedExecutable := resolvedExecutable this;
     validationRuns := S (validationRuns this) |}.

(** [validateEnvironment]: what the promise it returns settles to, and
    the provider when it has settled. *)
Definition validateEnvironment (this : CodexProvider) (w : World)
  : Result unit * CodexProvider :=
  let this := countValidation this in
  let hasOpenAi := presentAndNotBlank (env w !! "OPENAI_API_KEY") in
  let hasCodex := presentAndNotBlank (env w !! "CODEX_API_KEY") in
  if negb hasOpenAi && negb hasCodex then (Throw missingCredentialsError, this)
  else
    let configPath := resolveCodexConfigPath (env w !! "CODEX_CONFIG_PATH") in
    match fst (ensureFileExists configPath
                 "Codex configuration (~/.codex/config) was not found" w) with
    | Throw e => (Throw e, this)
    | Ok _ =>
        match fst (locateExecutable (executable (config this)) w) with
        | Throw e => (Throw e, this)
        | Ok path => (Ok tt, withResolvedExecutable path this)
        end
    end.

(** [ensureEnvironmentReady]: what [await this.environmentCheck] gives,
    and the provider after the call. *)
Definition ensureEnvironmentReady (this : CodexProvider) (w : World)
  : Result unit * CodexProvider :=
  match environmentCheck this with
  | None =>
      let '(outcome, this') := validateEnvironment this w in
      (outcome, withEnvironmentCheck outcome this')
  | Some outcome => (outcome, this)
  end.

Definition resolveCwd (this : CodexProvider) (workspaceRoot : string) : string :=
  if negb (truthyString (cwd (config this))) then workspaceRoot
  else path_resolve (default "" (cwd (config this))).

Definition buildCodexArgs (this : CodexProvider) : list string :=
  let args0 := ["--quiet"; "--json"] in
  let args1 :=
    if truthyString (profile (config this))
    then args0 ++ ["--profile"; default "" (profile (config this))] else args0 in
  let args2 :=
    if truthyString (model (config this))
    then args1 ++ ["--model"; default "" (model (config this))] else args1 in
  if truthyString (approvalPreset (config this))
  then args2 ++ ["--approval-preset"; default "" (approvalPreset (config this))] else args2.

(** [this.resolvedExecutable ?? this.config.executable]. *)
Definition executableInUse (this : CodexProvider) : string :=
  default (executable (config this)) (resolvedExecutable this).

Definition executableNotFoundError (this : CodexProvider) : Error :=
  newError ("Codex executable '" +:+ executable (config this)
            +:+ "' was not found. Update the target settings.executable or add it to PATH.").

Definition executeCodex (this : CodexProvider) (args : list string) (cwd promptContent : string)
    (signal : option AbortSignal) : IO CodexRunResult :=
  IO_catch
    (fun w =>
       runCodex this
         {| run_executable := executableInUse this; run_args := args; run_cwd := cwd;
            run_prompt := promptContent; run_timeoutMs := timeoutMs (config this);
            run_env := env w; run_signal := signal |} w)
    (fun err =>
       if bool_decide (code err = Some "ENOENT")
       then IO_throw (executableNotFoundError this)
       else IO_throw err).

(** One iteration of the loop of [mirrorAttachments] over the state
    [(mirrored, guidelineMirrors, nameCounts)]. *)
Definition mirrorOne (filesRoot : string) (guidelineOriginals : gset string)
    (state : mirrorRecord) (attachment : string) : IO mirrorRecord :=
  let '(mirrored, guidelineMirrors, nameCounts) := state in
  let absoluteSource := path_resolve attachment in
  let baseName := path_basename absoluteSource in
  let count := default 0 (nameCounts !! baseName) in
  let nameCounts' := <[baseName := count + 1]> nameCounts in
  let finalName :=
    if (count =? 0)%nat then baseName else baseName +:+ "." +:+ JsString.ofNat count in
  let destination := path_join filesRoot finalName in
  (Fs.copyFile absoluteSource destination ;;;
   let resolvedDestination := path_resolve destination in
   let mirrored' := mirrored ++ [resolvedDestination] in
   let guidelineMirrors' :=
     if bool_decide (absoluteSource ∈ guidelineOriginals)
     then guidelineMirrors ∪ {[resolvedDestination]}
     else guidelineMirrors in
   IO_ret (mirrored', guidelineMirrors', nameCounts'))%io.

Fixpoint mirrorLoop (filesRoot : string) (guidelineOriginals : gset string)
    (attachments : list string) (state : mirrorRecord) : IO mirrorRecord :=
  match attachments with
  | [] => IO_ret state
  | attachment :: rest =>
      (state' <- mirrorOne filesRoot guidelineOriginals state attachment ;;
       mirrorLoop filesRoot guidelineOriginals rest state')%io
  end.

(** [mirrorAttachments]: [(mirroredAttachments, guidelineMirrors)]. *)
Definition mirrorAttachments (attachments : option (list string)) (workspaceRoot : string)
    (guidelineOriginals : gset string) : IO (option (list string) * gset string) :=
  if noAttachments attachments then IO_ret (None, ∅)
  else
    let filesRoot := path_join workspaceRoot FILES_DIR in
    (Fs.mkdir filesRoot ;;;
     state <- mirrorLoop filesRoot guidelineOriginals (listOf attachments) ([], ∅, ∅) ;;
     IO_ret (Some (fst (fst state)), snd (fst state)))%io.

Definition createWorkspace : IO string :=
  Fs.mkdtemp (path_join tmpdir WORKSPACE_PREFIX).

Definition cleanupWorkspace (workspaceRoot : string) (w : World) : World :=
  Fs.rm workspaceRoot w.

Definition abortedBeforeExecution : Error :=
  newError "Codex provider request was aborted before execution".

Definition timedOutError (this : CodexProvider) : Error :=
  newError ("Codex CLI timed out" +:+ formatTimeoutSuffix (timeoutMs (config this))).

Definition nonZeroExitError (result : CodexRunResult) : Error :=
  let detail := pickDetail (stderr result) (stdout result) in
  let prefix := "Codex CLI exited with code " +:+ JsString.ofZ (exitCode result) in
  match detail with
  | Some d => if JsString.nonEmpty d then newError (prefix +:+ ": " +:+ d) else newError prefix
  | None => newError prefix
  end.

(** [new Set(collectGuidelineFiles(attachments, patterns).map(resolve))]. *)
Definition originalGuidelinesOf (attachments guidelinePatterns : option (list string))
  : gset string :=
  list_to_set (map path_resolve (collectGuidelineFiles attachments guidelinePatterns None)).

(** The options [invoke] passes to [buildPromptDocument]. *)
Definition mirroredPromptOptions (request : ProviderRequest) (guidelineMirrors : gset string)
  : option PromptDocumentOptions :=
  Some {| guidelinePatterns := guideline_patterns request;
          guidelineOverrides := Some guidelineMirrors |}.

(** The body of the [try] block of [invoke]. *)
Definition invokeInWorkspace (this : CodexProvider) (request : ProviderRequest)
    (attachments : option (list string)) (originalGuidelines : gset string)
    (workspaceRoot : string) : IO (ProviderResponse CodexRaw) :=
  (mirror <- mirrorAttachments attachments workspaceRoot originalGuidelines ;;
   let mirroredAttachments := fst mirror in
   let guidelineMirrors := snd mirror in
   let promptContent :=
     buildPromptDocument request mirroredAttachments
                         (mirroredPromptOptions request guidelineMirrors) in
   let promptFile := path_join workspaceRoot PROMPT_FILENAME in
   Fs.writeFile promptFile promptContent ;;;
   let args := buildCodexArgs this in
   let cwd := resolveCwd this workspaceRoot in
   result <- executeCodex this args cwd promptContent (signal request) ;;
   if default false (timedOut result) then IO_throw (timedOutError this)
   else if negb (exitCode result =? 0)%Z then IO_throw (nonZeroExitError result)
   else
     parsed <- IO_lift (parseCodexJson (stdout result)) ;;
     assistantText <- IO_lift (extractAssistantText parsed) ;;
     IO_ret {| text := assistantText;
               raw := {| raw_response := parsed;
                         raw_stdout := stdout result;
                         raw_stderr := stderr result;
                         raw_exitCode := exitCode result;
                         raw_args := args;
                         raw_executable := executableInUse this;
                         raw_promptFile := promptFile;
                         raw_workspace := workspaceRoot;
                         raw_attachments := mirroredAttachments |} |})%io.

(** [CodexProvider.invoke]: the response or the error thrown, the
    provider after the call, and the world after the call. *)
Definition invoke (this : CodexProvider) (request : ProviderRequest) (w : World)
  : Result (ProviderResponse CodexRaw) * CodexProvider * World :=
  if signalAborted request then (Throw abortedBeforeExecution, this, w)
  else
    let '(ready, this') := ensureEnvironmentReady this w in
    match ready with
    | Throw e => (Throw e, this', w)
    | Ok _ =>
        let attachments := normalizeAttachments (attachments request) in
        let originalGuidelines :=
          originalGuidelinesOf attachments (guideline_patterns request) in
        let '(r, w') :=
          (workspaceRoot <- createWorkspace ;;
           IO_finally
             (invokeInWorkspace this' request attachments originalGuidelines workspaceRoot)
             (cleanupWorkspace workspaceRoot))%io w in
        (r, this', w')
    end.

End Codex.

(* ================================================================== *)
(** ** codex.ts: the default process runner *)

(** [defaultCodexRunner] registers callbacks and returns a promise; what
    happens next is decided by the events the runtime delivers.  The
    model keeps the variables the callbacks close over, the callbacks
    that are still registered, and the state of the promise. *)
Module Runner.

Inductive ChildStatus : Type := Running | Exited.

Record State : Type := {
  out : string;                          (* let stdout *)
  err : string;                          (* let stderr *)
  timedOutFlag : bool;                   (* let timedOut *)
  abortListener : bool;                  (* onAbort is registered on options.signal *)
  timerPending : bool;                   (* timeoutHandle is set and not cleared or fired *)
  child : ChildStatus;
  delivered : list string;               (* signals child.kill has delivered, oldest first *)
  stdinData : option string;             (* what child.stdin.end was given *)
  settled : option (Result CodexRunResult)  (* the promise *)
}.

Inductive Event : Type :=
| AbortFired                 (* options.signal emits "abort" *)
| TimerExpired               (* the timeout set by setTimeout elapses *)
| StdoutData (chunk : string)
| StderrData (chunk : string)
| ChildExited                (* the process terminates *)
| ChildError (error : Error) (* child emits "error" *)
| ChildClose (code : option Z)  (* child emits "close" *).

(** Assignments to one component of the state. *)
Definition setOut (v : string) (s : State) : State :=
  {| out := v; err := err s; timedOutFlag := timedOutFlag s;
     abortListener := abortListener s; timerPending := timerPending s;
     child := child s; delivered := delivered s;
     stdinData := stdinData s; settled := settled s |}.

Definition setErr (v : string) (s : State) : State :=
  {| out := out s; err := v; timedOutFlag := timedOutFlag s;
     abortListener := abortListener s; timerPending := timerPending s;
     child := child s; delivered := delivered s;
     stdinData := stdinData s; settled := settled s |}.

Definition setTimedOut (s : State) : State :=
  {| out := out s; err := err s; timedOutFlag := true;
     abortListener := abortListener s; timerPending := timerPending s;
     child := child s; delivered := delivered s;
     stdinData := stdinData s; settled := settled s |}.

Definition setAbortListener (v : bool) (s : State) : State :=
  {| out := out s; err := err s; timedOutFlag := timedOutFlag s;
     abortListener := v; timerPending := timerPending s;
     child := child s; delivered := delivered s;
     stdinData := stdinData s; settled := settled s |}.

Definition setTimerPending (v : bool) (s : State) : State :=
  {| out := out s; err := err s; timedOutFlag := timedOutFlag s;
     abortListener := abortListener s; timerPending := v;
     child := child s; delivered := delivered s;
     stdinData := stdinData s; settled := settled s |}.

Definition setChild (v : ChildStatus) (s : State) : State :=
  {| out := out s; err := err s; timedOutFlag := timedOutFlag s;
     abortListener := abortListener s; timerPending := timerPending s;
     child := v; delivered := delivered s;
     stdinData := stdinData s; settled := settled s |}.

Definition setDelivered (v : list string) (s : State) : State :=
  {| out := out s; err := err s; timedOutFlag := timedOutFlag s;
     abortListener := abortListener s; timerPending := timerPending s;
     child := child s; delivered := v;
     stdinData := stdinData s; settled := settled s |}.

Definition setStdin (v : string) (s : State) : State :=
  {| out := out s; err := err s; timedOutFlag := timedOutFlag s;
     abortListener := abortListener s; timerPending := timerPending s;
     child := child s; delivered := delivered s;
     stdinData := Some v; settled := settled s |}.

Definition setSettled (v : Result CodexRunResult) (s : State) : State :=
  {| out := out s; err := err s; timedOutFlag := timedOutFlag s;
     abortListener := abortListener s; timerPending := timerPending s;
     child := child s; delivered := delivered s;
     stdinData := stdinData s; settled := Some v |}.

(** [child.kill(signal)]: delivers the signal to a running process; on
    a process that has exited it returns [false] and does nothing. *)
Definition kill (sig : string) (s : State) : State :=
  match child s with
  | Running => setDelivered (delivered s ++ [sig]) s
  | Exited => s
  end.

(** [const onAbort = () => { child.kill("SIGTERM"); }]. *)
Definition onAbort (s : State) : State := kill "SIGTERM" s.

(** The callback given to [setTimeout]:
    [timedOut = true; child.kill("SIGTERM")]. *)
Definition onTimeout (s : State) : State := kill "SIGTERM" (setTimedOut s).

(** [cleanup]: clears the timeout and removes the abort listener. *)
Definition cleanup (s : State) : State :=
  setAbortListener false (setTimerPending false s).

(** [resolve(...)] and [reject(...)]: only the first call settles. *)
Definition settle (r : Result CodexRunResult) (s : State) : State :=
  match settled s with
  | Some _ => s
  | None => setSettled r s
  end.

(** The object the ["close"] handler resolves with. *)
Definition result (code : option Z) (s : State) : CodexRunResult :=
  {| stdout := out s; stderr := err s;
     exitCode := match code with Some n => n | None => (-1)%Z end;
     timedOut := Some (timedOutFlag s) |}.

(** [options.timeoutMs && options.timeoutMs > 0]. *)
Definition armsTimer (options : CodexRunOptions) : bool :=
  match run_timeoutMs options with
  | Some ms => (0 <? ms)%Z
  | None => false
  end.

(** The state just after [spawn]. *)
Definition spawned : State :=
  {| out := ""; err := ""; timedOutFlag := false;
     abortListener := false; timerPending := false;
     child := Running; delivered := [];
     stdinData := None; settled := None |}.

(** The state when the executor function of the promise returns. *)
Definition start (options : CodexRunOptions) : State :=
  let s1 :=
    match run_signal options with
    | Some sig => if aborted sig then onAbort spawned else setAbortListener true spawned
    | None => spawned
    end in
  let s2 := if armsTimer options then setTimerPending true s1 else s1 in
  setStdin (run_prompt options) s2.

(** What one event does: the callback registered for it runs, if it is
    still registered.  The abort listener is registered with
    [{ once: true }]. *)
Definition step (s : State) (e : Event) : State :=
  match e with
  | AbortFired =>
      if abortListener s then onAbort (setAbortListener false s) else s
  | TimerExpired =>
      if timerPending s then onTimeout (setTimerPending false s) else s
  | StdoutData chunk => setOut (out s +:+ chunk) s
  | StderrData chunk => setErr (err s +:+ chunk) s
  | ChildExited => setChild Exited s
  | ChildError error => settle (Throw error) (cleanup s)
  | ChildClose code => settle (Ok (result code (cleanup s))) (cleanup s)
  end.

Definition run (options : CodexRunOptions) (events : list Event) : State :=
  foldl step (start options) events.

End Runner.

(* ================================================================== *)
(** ** vscode.ts: the session-based provider

    The sources hold two copies of [vscode.ts].  One calls the request
    field [inputFiles] and the normaliser [normalizeInputFiles]; the
    other, which stands beside [preread.ts], calls them [attachments] and
    [normalizeAttachments].  They do not differ otherwise.  The model
    follows the second, whose normaliser [preread.ts] defines. *)

(** The fields of [VSCodeResolvedConfig] ([./targets.js]) the provider
    reads. *)
Record VSCodeResolvedConfig : Type := {
  command : string;
  waitForResponse : bool;
  dryRun : bool;
  subagentRoot : option string;
  workspaceTemplate : option string
}.

Record SessionOptions : Type := {
  userQuery : string;
  session_extraAttachments : option (list string);
  session_wait : bool;
  session_dryRun : bool;
  session_vscodeCmd : string;
  session_subagentRoot : option string;
  session_workspaceTemplate : option string;
  session_silent : bool
}.

Record BatchOptions : Type := {
  userQueries : list string;
  extraAttachments : option (list string);
  wait : bool;
  batch_dryRun : bool;
  vscodeCmd : string;
  batch_subagentRoot : option string;
  batch_workspaceTemplate : option string;
  silent : bool
}.

(** What [dispatchAgentSession] resolves to. *)
Record AgentSession : Type := {
  agent_exitCode : Z;
  responseFile : option string;
  agent_error : option string
}.

(** What [dispatchBatchAgent] resolves to. *)
Record BatchSession : Type := {
  batch_exitCode : Z;
  responseFiles : option (list string);
  batch_error : option string
}.

(** The two functions of the [subagent] package the provider calls. *)
Class Subagent : Type := {
  dispatchAgentSession : SessionOptions -> IO AgentSession;
  dispatchBatchAgent : BatchOptions -> IO BatchSession
}.

Record VSCodeRaw : Type := {
  vs_session : AgentSession;
  vs_attachments : option (list string)
}.

Record VSCodeBatchRaw : Type := {
  vb_session : BatchSession;
  vb_attachments : option (list string);
  vb_allAttachments : option (list string);
  vb_responseFile : option string
}.

Section VSCode.
Context `{PathModule} `{YamlParser} `{Subagent}.

Variable config : VSCodeResolvedConfig.

Definition abortedBeforeDispatch : Error :=
  newError "VS Code provider request was aborted before dispatch".

Definition vscodeInvoke (request : ProviderRequest) : IO (ProviderResponse VSCodeRaw) :=
  if signalAborted request then IO_throw abortedBeforeDispatch
  else
    let attachments := normalizeAttachments (attachments request) in
    let promptContent := buildPromptDocument request attachments None in
    (session <- dispatchAgentSession
                  {| userQuery := promptContent;
                     session_extraAttachments := attachments;
                     session_wait := waitForResponse config;
                     session_dryRun := dryRun config;
                     session_vscodeCmd := command config;
                     session_subagentRoot := subagentRoot config;
                     session_workspaceTemplate := workspaceTemplate config;
                     session_silent := true |} ;;
     if negb (agent_exitCode session =? 0)%Z || negb (truthyString (responseFile session))
     then IO_throw (newError (default "VS Code subagent did not produce a response"
                                      (agent_error session)))
     else if dryRun config
     then IO_ret {| text := ""; raw := {| vs_session := session; vs_attachments := attachments |} |}
     else
       responseText <- Fs.readFile (default "" (responseFile session)) ;;
       IO_ret {| text := responseText;
                 raw := {| vs_session := session; vs_attachments := attachments |} |})%io.

(** One iteration of the inner loop of [mergeAttachments]; the [Set]
    is the list of its members in insertion order. *)
Definition addMerged (deduped : list string) (attachment : string) : list string :=
  let absolutePath := path_resolve attachment in
  if bool_decide (absolutePath ∈ deduped) then deduped else deduped ++ [absolutePath].

Definition mergeAttachments (all : list (option (list string))) : option (list string) :=
  let deduped :=
    foldl (fun deduped list =>
             match list with
             | None => deduped
             | Some l => foldl addMerged deduped l
             end) [] all in
  if (0 <? length deduped)%nat then Some deduped else None.

(** The entries of [normalizedRequests]. *)
Definition normalizeRequest (req : ProviderRequest) : ProviderRequest * option (list string) :=
  (req, normalizeAttachments (attachments req)).

Definition batchOptions (requests : list ProviderRequest) : BatchOptions :=
  let normalizedRequests := map normalizeRequest requests in
  {| userQueries := map (fun nr => buildPromptDocument (fst nr) (snd nr) None) normalizedRequests;
     extraAttachments := mergeAttachments (map snd normalizedRequests);
     wait := waitForResponse config;
     batch_dryRun := dryRun config;
     vscodeCmd := command config;
     batch_subagentRoot := subagentRoot config;
     batch_workspaceTemplate := workspaceTemplate config;
     silent := true |}.

Definition countMismatchError (returned requested : nat) : Error :=
  newError ("VS Code batch returned " +:+ JsString.ofNat returned +:+ " responses for "
            +:+ JsString.ofNat requested +:+ " requests").

(** The [for ... of session.responseFiles.entries()] loop, from entry
    [index] on, with the responses pushed so far. *)
Fixpoint readResponses (session : BatchSession)
    (normalizedRequests : list (ProviderRequest * option (list string)))
    (combinedAttachments : option (list string))
    (index : nat) (remaining : list string)
    (responses : list (ProviderResponse VSCodeBatchRaw))
  : IO (list (ProviderResponse VSCodeBatchRaw)) :=
  match remaining with
  | [] => IO_ret responses
  | responseFile :: rest =>
      (responseText <- Fs.readFile responseFile ;;
       readResponses session normalizedRequests combinedAttachments (S index) rest
         (responses ++
            [{| text := responseText;
                raw := {| vb_session := session;
                          vb_attachments :=
                            match normalizedRequests !! index with
                            | Some nr => snd nr
                            | None => None
                            end;
                          vb_allAttachments := combinedAttachments;
                          vb_responseFile := Some responseFile |} |}]))%io
  end.

Definition invokeBatch (requests : list ProviderRequest)
  : IO (list (ProviderResponse VSCodeBatchRaw)) :=
  if (length requests =? 0)%nat then IO_ret []
  else
    let normalizedRequests := map normalizeRequest requests in
    let combinedAttachments := mergeAttachments (map snd normalizedRequests) in
    (session <- dispatchBatchAgent (batchOptions requests) ;;
     if negb (batch_exitCode session =? 0)%Z || negb (isDefined (responseFiles session))
     then IO_throw (newError (default "VS Code subagent did not produce batch responses"
                                      (batch_error session)))
     else if dryRun config then
       IO_ret (map (fun nr =>
                      {| text := "";
                         raw := {| vb_session := session;
                                   vb_attachments := snd nr;
                                   vb_allAttachments := combinedAttachments;
                                   vb_responseFile := None |} |})
                   normalizedRequests)
     else
       let files := default [] (responseFiles session) in
       if negb (length files =? length requests)%nat
       then IO_throw (countMismatchError (length files) (length requests))
       else readResponses session normalizedRequests combinedAttachments 0 files [])%io.

End VSCode.

(* ================================================================== *)
(** ** Reference readings of three rules

    The extraction, parsing and flattening rules as the specification
    words them, to be compared with the functions of [codex.ts]. *)

Module Reading.

(** Flattening, with the pieces of an array joined by [sep]: a string
    as it is; an array through its elements' texts, the empty ones
    dropped; a bare object through its [text] field; nothing else. *)
Definition flattenContent_sep (sep : string) (value : option JsonValue) : option string :=
  match value with
  | Some (JString s) => Some s
  | Some (JArray items) =>
      match filter (fun s => JsString.nonEmpty s = true) (omap flattenSegment items) with
      | [] => None
      | pieces => Some (JsString.join sep pieces)
      end
  | Some (JObject fields) =>
      match Json.assoc "text" fields with
      | Some (JString text) => Some text
      | _ => None
      end
  | _ => None
  end.

(** The rule as the specification words it: a newline separator. *)
Definition flattenContent_spec : option JsonValue -> option string :=
  flattenContent_sep JsString.nl.

Definition isAssistantEntry (entry : JsonValue) : bool :=
  match entry with
  | JObject fields =>
      match Json.assoc "role" fields with
      | Some (JString role) => String.eqb role "assistant"
      | _ => false
      end
  | _ => false
  end.

Definition contentText (entry : JsonValue) : option string :=
  flattenContent (Json.prop "content" entry).

Definition messagesOf (parsed : JsonValue) : list JsonValue :=
  match Json.prop "messages" parsed with
  | Some (JArray messages) => messages
  | _ => []
  end.

Definition responseText (parsed : JsonValue) : option string :=
  match Json.prop "response" parsed with
  | Some response => flattenContent (Json.prop "content" response)
  | None => None
  end.

Definition outputText (parsed : JsonValue) : option string :=
  flattenContent (Json.prop "output" parsed).

(** The first candidate that is a non-empty text, or the
    missing-assistant-message error. *)
Definition firstText (candidates : list (option string)) : Result string :=
  match List.find truthy candidates with
  | Some (Some text) => Ok text
  | _ => Throw missingAssistantMessage
  end.

(** The last entry of [messages] whose role is ["assistant"]. *)
Definition lastAssistant (messages : list JsonValue) : option JsonValue :=
  List.find isAssistantEntry (rev messages).

(** The candidates as the specification words them: the content of
    the last assistant message, [response.content], [output]. *)
Definition candidates_spec (parsed : JsonValue) : list (option string) :=
  [ match lastAssistant (messagesOf parsed) with
    | Some entry => contentText entry
    | None => None
    end;
    responseText parsed;
    outputText parsed ].

Definition extractAssistantText_spec (parsed : JsonValue) : Result string :=
  firstText (candidates_spec parsed).

(** The candidates when every assistant message is one, the last
    message first. *)
Definition candidates_scanning (parsed : JsonValue) : list (option string) :=
  map contentText (filter (fun entry => isAssistantEntry entry = true) (rev (messagesOf parsed)))
  ++ [responseText parsed; outputText parsed].


End Reading.

(* ================================================================== *)
(** ** Concrete hosts

    Instances of the host interfaces on which the functions can be run:
    the POSIX flavour of [node:path], a guideline matcher for patterns of
    the form [**/*suffix], a [JSON.parse] that knows a finite table of
    documents, and a session harness that answers from a script. *)

Module Posix.

Definition isAbsolute (p : string) : bool := String.prefix "/" p.

Definition endsWithSlash (p : string) : bool :=
  match rev (list_ascii_of_string p) with
  | c :: _ => Ascii.eqb c "/"
  | [] => false
  end.

(** One step of [normalizeString] over the segments kept so far, most
    recent first. *)
Definition normalizeStep (allowAboveRoot : bool) (kept : list string) (segment : string)
  : list string :=
  if String.eqb segment "" || String.eqb segment "." then kept
  else if String.eqb segment ".." then
    match kept with
    | [] => if allowAboveRoot then [".."] else []
    | top :: below =>
        if allowAboveRoot && String.eqb top ".." then ".." :: kept else below
    end
  else segment :: kept.

Definition normalizeSegments (allowAboveRoot : bool) (segments : list string) : list string :=
  rev (foldl (normalizeStep allowAboveRoot) [] segments).

(** [path.resolve(p)] in a process whose working directory is [cwd]. *)
Definition resolve (cwd p : string) : string :=
  let full := if isAbsolute p then p else cwd +:+ "/" +:+ p in
  "/" +:+ JsString.join "/" (normalizeSegments false (JsString.split "/" full)).

(** [path.normalize(p)]. *)
Definition normalize (p : string) : string :=
  if (String.length p =? 0)%nat then "."
  else
    let body := JsString.join "/" (normalizeSegments (negb (isAbsolute p)) (JsString.split "/" p)) in
    if (String.length body =? 0)%nat then
      if isAbsolute p then "/" else if endsWithSlash p then "./" else "."
    else
      (if isAbsolute p then "/" else "") +:+ body +:+ (if endsWithSlash p then "/" else "").

(** [path.join(a, b)]. *)
Definition join (a b : string) : string :=
  let joined :=
    if (String.length a =? 0)%nat then b
    else if (String.length b =? 0)%nat then a
    else a +:+ "/" +:+ b in
  normalize joined.

(** [path.basename(p)]. *)
Definition basename (p : string) : string :=
  default "" (last (filter (fun segment => JsString.nonEmpty segment = true)
                           (JsString.split "/" p))).

(** A segment without a separator, and one that normalisation keeps. *)
Definition slashFree (segment : string) : Prop := JsString.occurs "/" segment = false.

Definition plain (segment : string) : Prop :=
  slashFree segment /\ segment <> "" /\ segment <> "." /\ segment <> "..".

Definition pathModule (cwd : string) : PathModule :=
  {| path_resolve := resolve cwd;
     path_basename := basename;
     path_join := join;
     path_isAbsolute := isAbsolute;
     path_sep := "/" |}.

End Posix.

Module Fixtures.

Definition endsWith (suffix s : string) : bool :=
  let n := String.length s - String.length suffix in
  (String.length suffix <=? String.length s)%nat && String.eqb (JsString.drop n s) suffix.

(** The text of a pattern after its last [*]. *)
Fixpoint afterLastStar (pattern : string) : string :=
  match pattern with
  | EmptyString => EmptyString
  | String c rest =>
      if JsString.includes "*" rest then afterLastStar rest
      else if Ascii.eqb c "*" then rest else pattern
  end.

(** A path is a guideline file when it ends like one of the patterns. *)
Definition suffixMatcher : YamlParser :=
  {| isGuidelineFile := fun path patterns =>
       existsb (fun pattern => endsWith (afterLastStar pattern) path) (default [] patterns) |}.

(** A parser that knows the documents of [table]. *)
Definition tableParser (table : list (string * JsonValue)) : JsonModule :=
  {| JSON_parse := fun s => Json.assoc s table |}.

(** A harness whose batch dispatch creates the files of [written] and
    resolves to [session]. *)
Definition scriptedSubagent (session : BatchSession) (written : list (string * string))
  : Subagent :=
  {| dispatchAgentSession := fun _ => IO_throw (newError "no session scripted");
     dispatchBatchAgent := fun _ w =>
       (Ok session, withFiles (foldl (fun fs entry => <[fst entry := snd entry]> fs)
                                     (files w) written) w) |}.

Definition linux : OsModule :=
  {| homedir := "/home/eval"; tmpdir := "/tmp"; platform := "linux" |}.

Definition emptyWorld : World :=
  {| files := ∅; env := ∅; exec := fun _ => None; readLog := []; tempCount := 0 |}.

Definition worldWith (fs : list (string * string)) (vars : list (string * string)) : World :=
  {| files := list_to_map fs; env := list_to_map vars; exec := fun _ => None;
     readLog := []; tempCount := 0 |}.

Definition request (text : string) (files : list string) (patterns : option (list string))
  : ProviderRequest :=
  {| prompt := text; attachments := Some files; guideline_patterns := patterns; signal := None |}.

(** The fixtures of the provider tests. *)
Definition workPath : PathModule := Posix.pathModule "/work".

Definition notesWorld : World :=
  worldWith [("/a/notes.md", "first"); ("/work/docs/notes.md", "second");
             ("/c/notes.md", "third")] [].

Definition threeNotes : list string := ["/a/notes.md"; "docs/notes.md"; "/c/notes.md"].

Definition codeCommand (dry : bool) : VSCodeResolvedConfig :=
  {| command := "code"; waitForResponse := true; dryRun := dry;
     subagentRoot := None; workspaceTemplate := None |}.

Definition twoRequests : list ProviderRequest :=
  [request "first" ["a.txt"] None; request "second" ["b.txt"] None].

Definition twoResponses : BatchSession :=
  {| batch_exitCode := 0;
     responseFiles := Some ["/tmp/res1.md"; "/tmp/res2.md"];
     batch_error := None |}.

Definition oneResponse : BatchSession :=
  {| batch_exitCode := 0; responseFiles := Some ["/tmp/res1.md"]; batch_error := None |}.

Definition twoResponseFiles : list (string * string) :=
  [("/tmp/res1.md", "resp-one"); ("/tmp/res2.md", "resp-two")].

Definition guidelineRequest : ProviderRequest :=
  request "Implement feature" ["prompts/python.instructions.md"; "src/main.py"]
          (Some ["**/*.instructions.md"]).

Definition sourceWorld : World :=
  worldWith [("/work/prompts/python.instructions.md", "guideline");
             ("/work/src/main.py", "print('hi')")] [].

Definition codexSettings : CodexResolvedConfig :=
  {| executable := "/usr/bin/codex"; profile := Some "default"; model := Some "test";
     approvalPreset := Some "auto"; cwd := None; timeoutMs := Some 1000%Z |}.

(** A runner that prints a fixed document. *)
Definition fixedRunner (output : string) : CodexRunner :=
  fun _ => IO_ret {| stdout := output; stderr := ""; exitCode := 0; timedOut := None |}.

Definition runOptions (timeout : option Z) (sig : option AbortSignal) : CodexRunOptions :=
  {| run_executable := "codex"; run_args := ["--quiet"; "--json"]; run_cwd := "/tmp";
     run_prompt := "hello"; run_timeoutMs := timeout; run_env := ∅; run_signal := sig |}.

(** The document [{"output":"done"}] and a parser that knows it. *)
Definition quote : string := String (ascii_of_nat 34) EmptyString.

Definition doneDocument : string :=
  "{" +:+ quote +:+ "output" +:+ quote +:+ ":" +:+ quote +:+ "done" +:+ quote +:+ "}".

Definition knownDocuments : JsonModule :=
  tableParser [(doneDocument, JObject [("output", JString "done")]); ("{}", JObject [])].

(** A machine on which the process-based provider is ready to run, with
    the two attachments of [guidelineRequest]. *)
Definition codexTarget : CodexProvider :=
  newCodexProvider "codex-target" codexSettings (fixedRunner doneDocument).

Definition readySourceWorld : World :=
  worldWith [("/home/eval/.codex/config", "profile: default"); ("/usr/bin/codex", "");
             ("/work/prompts/python.instructions.md", "guideline");
             ("/work/src/main.py", "print('hi')")]
            [("OPENAI_API_KEY", "test-key")].

End Fixtures.

(* ================================================================== *)
(** ** The mirror plan

    What [mirrorAttachments] computes, apart from the copies it makes. *)

Section MirrorPlan.
Context `{PathModule}.

(** The name a file is mirrored under: its base name the first time,
    and the base name with the suffix [.count] when [count] earlier
    attachments had the same base name. *)
Definition mirrorName (baseName : string) (count : nat) : string :=
  if (count =? 0)%nat then baseName else baseName +:+ "." +:+ JsString.ofNat count.

Definition baseNameOf (attachment : string) : string :=
  path_basename (path_resolve attachment).

(** How many of the first [i] attachments have the base name of
    [attachment]. *)
Definition earlierSameName (attachments : list string) (i : nat) (attachment : string) : nat :=
  length (filter (fun other => baseNameOf other = baseNameOf attachment) (take i attachments)).

Definition mirroredPath (filesRoot : string) (attachments : list string) (i : nat)
    (attachment : string) : string :=
  path_resolve (path_join filesRoot
                  (mirrorName (baseNameOf attachment) (earlierSameName attachments i attachment))).

(** The state [mirrorOne] reaches when the copy succeeds. *)
Definition mirrorStep (filesRoot : string) (guidelineOriginals : gset string)
    (state : mirrorRecord) (attachment : string) : mirrorRecord :=
  let '(mirrored, guidelineMirrors, nameCounts) := state in
  let count := default 0 (nameCounts !! baseNameOf attachment) in
  let resolvedDestination :=
    path_resolve (path_join filesRoot (mirrorName (baseNameOf attachment) count)) in
  (mirrored ++ [resolvedDestination],
   if bool_decide (path_resolve attachment ∈ guidelineOriginals)
   then guidelineMirrors ∪ {[resolvedDestination]} else guidelineMirrors,
   <[baseNameOf attachment := count + 1]> nameCounts).

(** Every attachment is a file of the world. *)
Definition sourcesExist (attachments : list string) (w : World) : Prop :=
  forall a, a ∈ attachments -> is_Some (files w !! path_resolve a).

(** What holds of the loop state after the attachments [done]. *)
Definition mirrorInvariant (filesRoot : string) (guidelineOriginals : gset string)
    (done : list string) (state : mirrorRecord) : Prop :=
  let '(mirrored, guidelineMirrors, nameCounts) := state in
  length mirrored = length done
  /\ (forall i a, done !! i = Some a ->
                  mirrored !! i = Some (mirroredPath filesRoot done i a))
  /\ (forall b, default 0 (nameCounts !! b)
                = length (filter (fun other => baseNameOf other = b) done))
  /\ (forall m, m ∈ guidelineMirrors <->
                exists i a, done !! i = Some a /\ mirrored !! i = Some m
                            /\ path_resolve a ∈ guidelineOriginals).

(** What a successful [mirrorAttachments] returns for a non-empty
    attachment list. *)
Definition mirrorOutcome (attachments : list string) (workspaceRoot : string)
    (guidelineOriginals : gset string)
    (mirrored : list string) (guidelineMirrors : gset string) : Prop :=
  let filesRoot := path_join workspaceRoot FILES_DIR in
  length mirrored = length attachments
  /\ (forall i a, attachments !! i = Some a ->
        mirrored !! i = Some (mirroredPath filesRoot attachments i a))
  /\ (forall m, m ∈ guidelineMirrors <->
        exists i a, attachments !! i = Some a /\ mirrored !! i = Some m
                    /\ path_resolve a ∈ guidelineOriginals).

End MirrorPlan.

(* ================================================================== *)
(** ** Invariants of the provider instance and of the runner *)

Section Memo.
Context `{PathModule} `{YamlParser} `{JsonModule} `{OsModule}.


(** What [invoke] returns or throws. *)
Definition outcomeOf (this : CodexProvider) (request : ProviderRequest) (w : World)
  : Result (ProviderResponse CodexRaw) := fst (fst (invoke this request w)).





End Memo.


Module RunnerInvariant.
Import Runner.


End RunnerInvariant.

(* ================================================================== *)
(** ** The workspace of an [invoke] *)

Section MirrorCopies.
Context `{PathModule}.

(** The path [mirrorOne] copies the attachment at position [i] to. *)
Definition mirrorDestination (filesRoot : string) (attachments : list string) (i : nat)
    (attachment : string) : string :=
  path_join filesRoot
    (mirrorName (baseNameOf attachment) (earlierSameName attachments i attachment)).

Definition mirrorDestinations (filesRoot : string) (attachments : list string) : list string :=
  imap (mirrorDestination filesRoot attachments) attachments.

End MirrorCopies.

Section Workspace.
Context `{PathModule} `{YamlParser} `{JsonModule} `{OsModule}.

(** The directory [createWorkspace] makes in the world [w]. *)
Definition workspaceOf (w : World) : string :=
  path_join tmpdir WORKSPACE_PREFIX +:+ JsString.ofNat (tempCount w).

(** The world an [invoke] leaves behind. *)
Definition worldAfter (this : CodexProvider) (request : ProviderRequest) (w : World) : World :=
  snd (invoke this request w).


End Workspace.

(* ================================================================== *)
(** ** What a run of the default runner has seen *)

Module RunnerTrace.
Import Runner.

(** Whether the handler of the event settles the promise. *)
Definition settles (e : Event) : bool :=
  match e with
  | ChildError _ | ChildClose _ => true
  | _ => false
  end.

(** What the child has written to its standard output and to its
    standard error in the events. *)
Definition written (toStdout : bool) (events : list Event) : string :=
  foldl (fun text e =>
           match e with
           | StdoutData chunk => if toStdout then text +:+ chunk else text
           | StderrData chunk => if toStdout then text else text +:+ chunk
           | _ => text
           end) "" events.

(** Whether the timer expires in the events. *)
Definition expires (events : list Event) : bool :=
  existsb (fun e => match e with TimerExpired => true | _ => false end) events.

(** Whether the timer callback has run in the events. *)
Definition timerFired (options : CodexRunOptions) (events : list Event) : bool :=
  armsTimer options && expires events.

(** What holds while no handler has settled the promise. *)
Definition pendingInvariant (options : CodexRunOptions) (seen : list Event) (s : State) : Prop :=
  settled s = None
  /\ out s = written true seen
  /\ err s = written false seen
  /\ timedOutFlag s = timerFired options seen
  /\ timerPending s = armsTimer options && negb (expires seen).

(** What holds once a handler has settled the promise. *)
Definition settledInvariant (s : State) : Prop :=
  isDefined (settled s) = true -> abortListener s = false /\ timerPending s = false.

(** What holds of the child, whatever the events. *)
Definition childInvariant (options : CodexRunOptions) (s : State) : Prop :=
  stdinData s = Some (run_prompt options)
  /\ Forall (fun sig => sig = "SIGTERM") (delivered s)
  /\ length (delivered s) + (if abortListener s then 1 else 0)
       + (if timerPending s then 1 else 0)
     <= (if isDefined (run_signal options) then 1 else 0)
        + (if armsTimer options then 1 else 0).

End RunnerTrace.

(* ================================================================== *)
(** ** Lists without repetitions *)

(** The elements of [l], each once, in the order of their first
    occurrence. *)
Definition firstOccurrences {A} `{EqDecision A} (l : list A) : list A :=
  reverse (remove_dups (reverse l)).

(* ================================================================== *)
(** ** file-utils.ts *)

(** The further functions of [node:path] that [file-utils.ts] calls,
    and [process.cwd()].  [path_resolveFrom base p] is
    [path.resolve(base, p)]; [path_root p] is [path.parse(p).root]. *)
Class PathDirs : Type := {
  path_dirname : string -> string;
  path_normalize : string -> string;
  path_resolveFrom : string -> string -> string;
  path_root : string -> string;
  process_cwd : string
}.

(** What [resolveFileReference] resolves to. *)
Record FileResolution : Type := {
  displayPath : string;
  resolvedPath : option string;
  attempted : list string
}.

(** [/^[/\\]+/]: the characters the pattern removes. *)
Definition isSeparator (c : ascii) : bool := Ascii.eqb c "/" || Ascii.eqb c "\".

(** [value.replace(/^[/\\]+/, "")]. *)
Fixpoint dropSeparators (value : string) : string :=
  match value with
  | EmptyString => EmptyString
  | String c rest => if isSeparator c then dropSeparators rest else value
  end.

Definition trimLeadingSeparators (value : string) : string :=
  let trimmed := dropSeparators value in
  if (0 <? String.length trimmed)%nat then trimmed else value.

Section FileUtils.
Context `{PathModule} `{PathDirs}.

Definition fileExists (filePath : string) : IO bool :=
  IO_catch (Fs.access filePath ;;; IO_ret true)%io (fun _ => IO_ret false).



(** [addRoot] inside [buildSearchRoots]. *)
Definition addRoot (uniqueRoots : list string) (root : string) : list string :=
  let normalized := path_resolve root in
  if negb (bool_decide (normalized ∈ uniqueRoots)) then uniqueRoots ++ [normalized]
  else uniqueRoots.

(** The [while] loop of [buildSearchRoots], for at most [fuel]
    iterations. *)
Fixpoint searchRootsLoop (fuel : nat) (repoRoot currentDir : string) (uniqueRoots : list string)
  : option (list string) :=
  match fuel with
  | 0 => None
  | S fuel' =>
      let uniqueRoots := addRoot uniqueRoots currentDir in
      let parentDir := path_dirname currentDir in
      if String.eqb currentDir repoRoot || String.eqb parentDir currentDir
      then Some uniqueRoots
      else searchRootsLoop fuel' repoRoot parentDir uniqueRoots
  end.

(** [buildSearchRoots], its loop run for at most [fuel] iterations:
    [None] when they did not end it. *)
Definition buildSearchRoots (fuel : nat) (evalPath repoRoot : string) : option (list string) :=
  match searchRootsLoop fuel repoRoot (path_dirname evalPath) [] with
  | Some uniqueRoots => Some (addRoot (addRoot uniqueRoots repoRoot) process_cwd)
  | None => None
  end.

(** The list [potentialPaths] of [resolveFileReference]. *)
Definition potentialPaths (rawValue : string) (searchRoots : list string) : list string :=
  (if path_isAbsolute rawValue then [path_normalize rawValue] else [])
  ++ map (fun base => path_resolveFrom base (trimLeadingSeparators rawValue)) searchRoots.

(** The second loop of [resolveFileReference]: [(resolvedPath, attempted)]. *)
Fixpoint tryCandidates (candidates : list string) (attempted : list string) (seen : gset string)
  : IO (option string * list string) :=
  match candidates with
  | [] => IO_ret (None, attempted)
  | candidate :: rest =>
      let absoluteCandidate := path_resolve candidate in
      if bool_decide (absoluteCandidate ∈ seen) then tryCandidates rest attempted seen
      else
        let seen := seen ∪ {[absoluteCandidate]} in
        let attempted := attempted ++ [absoluteCandidate] in
        (found <- fileExists absoluteCandidate ;;
         if (found : bool) then IO_ret (Some absoluteCandidate, attempted)
         else tryCandidates rest attempted seen)%io
  end.

(** The directory [dir] and the directories above it, [n] in all. *)
Fixpoint ancestors (n : nat) (dir : string) : list string :=
  match n with
  | 0 => []
  | S n' => dir :: ancestors n' (path_dirname dir)
  end.

Definition resolveFileReference (rawValue : string) (searchRoots : list string)
  : IO FileResolution :=
  (tried <- tryCandidates (potentialPaths rawValue searchRoots) [] ∅ ;;
   IO_ret {| displayPath := trimLeadingSeparators rawValue;
             resolvedPath := fst tried;
             attempted := snd tried |})%io.

End FileUtils.

(** [node:path] for POSIX, continued: the functions of [PathDirs]. *)
Module PosixDirs.

Definition isSlash (c : ascii) : bool := Ascii.eqb c "/".

Fixpoint dropWhile (f : ascii -> bool) (l : list ascii) : list ascii :=
  match l with
  | [] => []
  | c :: rest => if f c then dropWhile f rest else l
  end.

(** [path.dirname(p)]: the scan runs from the end of the path down to
    its second character, over the trailing slashes and then over the
    last segment, and stops at the slash before it. *)
Definition dirname (p : string) : string :=
  match p with
  | EmptyString => "."
  | String first rest =>
      let hasRoot := isSlash first in
      let scanned :=
        dropWhile (fun c => negb (isSlash c))
                  (dropWhile isSlash (rev (list_ascii_of_string rest))) in
      match scanned with
      | [] => if hasRoot then "/" else "."
      | _ :: before =>
          if hasRoot && (length before =? 0)%nat then "//"
          else String first (string_of_list_ascii (rev before))
      end
  end.

(** [path.resolve(base, p)] in a process whose working directory is
    [cwd]. *)
Definition resolveFrom (cwd base p : string) : string :=
  if Posix.isAbsolute p then Posix.resolve cwd p
  else if (String.length p =? 0)%nat then Posix.resolve cwd base
  else if (String.length base =? 0)%nat then Posix.resolve cwd p
  else Posix.resolve cwd (base +:+ "/" +:+ p).

(** [path.parse(p).root]. *)
Definition root (p : string) : string := if Posix.isAbsolute p then "/" else "".

Definition pathDirs (cwd : string) : PathDirs :=
  {| path_dirname := dirname;
     path_normalize := Posix.normalize;
     path_resolveFrom := resolveFrom cwd;
     path_root := root;
     process_cwd := cwd |}.

(** A number that [dirname] makes smaller until it returns its
    argument. *)
Definition depth (p : string) : nat :=
  if String.eqb p "." then 0 else S (String.length p).

End PosixDirs.

(* ================================================================== *)
(** ** The file-reference validator

    The second module of the file that holds [codex.ts]:
    [validateFileReferences] and [validateMessagesFileRefs].  Its
    [fileExists] is the one of [file-utils.ts], word for word. *)

(** [parse] of the [yaml] package: [None] when it throws. *)
Class YamlModule : Type := { YAML_parse : string -> option JsonValue }.

(** The fields of [ValidationError] ([./types.js]) the validator sets. *)
Record ValidationError : Type := {
  severity : string;
  filePath : string;
  location : string;
  ve_message : string
}.

(** [typeof value === "object" && value !== null && !Array.isArray(value)]. *)
Definition isObject (value : JsonValue) : bool :=
  match value with
  | JObject _ => true
  | _ => false
  end.

(** [`${location}[${i}].content[${j}]`]. *)
Definition itemLocation (location : string) (i j : nat) : string :=
  location +:+ "[" +:+ JsString.ofNat i +:+ "].content[" +:+ JsString.ofNat j +:+ "]".

Section Validator.
Context `{PathModule} `{PathDirs} `{YamlModule}.

(** The body of the inner loop of [validateMessagesFileRefs], for
    [content[j]] of [messages[i]]. *)
Definition validateContentItem (location evalDir filePath : string) (i j : nat)
    (errors : list ValidationError) (contentItem : JsonValue) : IO (list ValidationError) :=
  if negb (isObject contentItem) then IO_ret errors
  else if negb (Json.isTheString "file" (Json.prop "type" contentItem)) then IO_ret errors
  else
    match Json.prop "value" contentItem with
    | Some (JString value) =>
        let resolvedPath :=
          if path_isAbsolute value then value else path_resolveFrom evalDir value in
        (present <- fileExists resolvedPath ;;
         if negb present then
           IO_ret (errors ++
                   [{| severity := "error"; filePath := filePath;
                       location := itemLocation location i j;
                       ve_message := "Referenced file not found: " +:+ value
                                     +:+ " (resolved to: " +:+ resolvedPath +:+ ")" |}])
         else
           IO_catch
             (fileContent <- Fs.readFile resolvedPath ;;
              if (String.length (JsString.trim fileContent) =? 0)%nat then
                IO_ret (errors ++
                        [{| severity := "warning"; filePath := filePath;
                            location := itemLocation location i j;
                            ve_message := "Referenced file is empty: " +:+ value |}])
              else IO_ret errors)
             (fun error =>
                IO_ret (errors ++
                        [{| severity := "error"; filePath := filePath;
                            location := itemLocation location i j;
                            ve_message := "Cannot read referenced file: " +:+ value
                                          +:+ " (" +:+ message error +:+ ")" |}])))%io
    | _ =>
        IO_ret (errors ++
                [{| severity := "error"; filePath := filePath;
                    location := itemLocation location i j +:+ ".value";
                    ve_message := "File reference must have a 'value' field with the file path" |}])
    end.

(** The inner loop, from [content[j]] on. *)
Fixpoint validateContent (location evalDir filePath : string) (i j : nat)
    (content : list JsonValue) (errors : list ValidationError) : IO (list ValidationError) :=
  match content with
  | [] => IO_ret errors
  | contentItem :: rest =>
      (errors' <- validateContentItem location evalDir filePath i j errors contentItem ;;
       validateContent location evalDir filePath i (S j) rest errors')%io
  end.

(** The body of the outer loop of [validateMessagesFileRefs]. *)
Definition validateMessage (location evalDir filePath : string) (i : nat)
    (errors : list ValidationError) (message : JsonValue) : IO (list ValidationError) :=
  if negb (isObject message) then IO_ret errors
  else
    match Json.prop "content" message with
    | Some (JArray content) => validateContent location evalDir filePath i 0 content errors
    | _ => IO_ret errors
    end.

(** The outer loop, from [messages[i]] on. *)
Fixpoint validateMessagesFrom (location evalDir filePath : string) (i : nat)
    (messages : list JsonValue) (errors : list ValidationError) : IO (list ValidationError) :=
  match messages with
  | [] => IO_ret errors
  | message :: rest =>
      (errors' <- validateMessage location evalDir filePath i errors message ;;
       validateMessagesFrom location evalDir filePath (S i) rest errors')%io
  end.

(** [validateMessagesFileRefs]: the array [errors] after the call. *)
Definition validateMessagesFileRefs (messages : list JsonValue)
    (location evalDir filePath : string) (errors : list ValidationError)
  : IO (list ValidationError) :=
  validateMessagesFrom location evalDir filePath 0 messages errors.

(** [`evalcases[${i}].${field}`]. *)
Definition caseLocation (i : nat) (field : string) : string :=
  "evalcases[" +:+ JsString.ofNat i +:+ "]." +:+ field.

(** The messages under [field] of an eval case, when they are an array. *)
Definition validateField (evalDir absolutePath : string) (i : nat) (field : string)
    (evalCase : JsonValue) (errors : list ValidationError) : IO (list ValidationError) :=
  match Json.prop field evalCase with
  | Some (JArray messages) =>
      validateMessagesFileRefs messages (caseLocation i field) evalDir absolutePath errors
  | _ => IO_ret errors
  end.

(** The body of the loop of [validateFileReferences]. *)
Definition validateCase (evalDir absolutePath : string) (i : nat)
    (errors : list ValidationError) (evalCase : JsonValue) : IO (list ValidationError) :=
  if negb (isObject evalCase) then IO_ret errors
  else
    (errors' <- validateField evalDir absolutePath i "input_messages" evalCase errors ;;
     validateField evalDir absolutePath i "expected_messages" evalCase errors')%io.

Fixpoint validateCasesFrom (evalDir absolutePath : string) (i : nat)
    (evalcases : list JsonValue) (errors : list ValidationError) : IO (list ValidationError) :=
  match evalcases with
  | [] => IO_ret errors
  | evalCase :: rest =>
      (errors' <- validateCase evalDir absolutePath i errors evalCase ;;
       validateCasesFrom evalDir absolutePath (S i) rest errors')%io
  end.

(** The [try] block of [validateFileReferences]: the parsed document,
    or [None] when reading or parsing throws. *)
Definition readDocument (absolutePath : string) : IO (option JsonValue) :=
  IO_catch
    (content <- Fs.readFile absolutePath ;;
     match YAML_parse content with
     | Some parsed => IO_ret (Some parsed)
     | None => IO_throw (newError "YAMLParseError")
     end)%io
    (fun _ => IO_ret None).

Definition validateFileReferences (evalFilePath : string) : IO (list ValidationError) :=
  let errors : list ValidationError := [] in
  let absolutePath := path_resolve evalFilePath in
  let evalDir := path_dirname absolutePath in
  (document <- readDocument absolutePath ;;
   match document with
   | None => IO_ret errors
   | Some parsed =>
       if negb (isObject parsed) then IO_ret errors
       else
         match Json.prop "evalcases" parsed with
         | Some (JArray evalcases) => validateCasesFrom evalDir absolutePath 0 evalcases errors
         | _ => IO_ret errors
         end
   end)%io.

(** *** The file references of a document *)







End Validator.


(* ================================================================== *)
(** ** Further fixtures *)

Module Samples.
Import Fixtures.

Definition workDirs : PathDirs := PosixDirs.pathDirs "/work".


(** Attachments that name two files in three ways. *)
Definition repeatedNotes : list string :=
  ["docs/notes.md"; "/a/notes.md"; "/work/docs/../docs/notes.md"].

(** A repository with an eval file two directories down. *)
Definition repoWorld : World :=
  worldWith [("/repo/.git", "gitdir"); ("/repo/evals/cases/suite.yaml", "suite");
             ("/repo/evals/prompt.md", "Answer briefly."); ("/repo/evals/empty.md", "  ")] [].

(** The document of [suite.yaml]: one case whose input refers to a
    file that is there, a blank file, a missing file and a reference
    without a path, and whose expected answer is plain text. *)
Definition fileRef (value : option string) : JsonValue :=
  JObject (("type", JString "file")
           :: match value with Some v => [("value", JString v)] | None => [] end).

Definition suiteDocument : JsonValue :=
  JObject
    [("evalcases",
      JArray
        [JObject
           [("id", JString "one");
            ("input_messages",
             JArray
               [JObject [("role", JString "system"); ("content", JString "Be brief.")];
                JObject
                  [("role", JString "user");
                   ("content",
                    JArray [JObject [("type", JString "text"); ("value", JString "Hello")];
                            fileRef (Some "../prompt.md");
                            fileRef (Some "../empty.md");
                            fileRef (Some "/repo/evals/missing.md");
                            fileRef None])]]);
            ("expected_messages",
             JArray [JObject [("role", JString "assistant"); ("content", JString "Hi")]])]])].

Definition suiteParser : YamlModule :=
  {| YAML_parse := fun content => Json.assoc content [("suite", suiteDocument)] |}.

(** A request whose second attachment does not exist on the machine of
    [readySourceWorld]. *)
Definition missingRequest : ProviderRequest :=
  request "Implement feature" ["src/main.py"; "missing.txt"] None.

(** A run of the default runner: output, a timeout, the exit. *)
Definition timedOutRun : list Runner.Event :=
  [Runner.StdoutData "par"; Runner.StderrData "slow"; Runner.TimerExpired;
   Runner.StdoutData "tial"; Runner.ChildExited].

End Samples.

(* ================================================================== *)
(* ================================================================== *)
(** * Properties *)

(** ** String primitives *)

Section StringFacts.





End StringFacts.

(** ** Response extraction: flattening *)

Lemma partTexts_filter (f : JsonValue -> option string) items :
  partTexts (filter (fun p => isNonEmptyPart p = true) (map f items))
  = filter (fun s => JsString.nonEmpty s = true) (omap f items).
Proof.
  unfold partTexts.
  induction items as [|x xs IH]; [done|].
  cbn [map omap list_omap]. rewrite filter_cons.
  destruct (f x) as [s|] eqn:E; cbn [isNonEmptyPart].
  - rewrite filter_cons. destruct (JsString.nonEmpty s) eqn:E2.
    + rewrite !decide_True by done. cbn. by rewrite IH.
    + rewrite !decide_False by (by intros ?). exact IH.
  - rewrite decide_False by (by intros ?). exact IH.
Qed.

(** An element of an array contributes its own text when it is a
    string, its [text] field when it is an object that has one and the
    field is a string, and nothing otherwise. *)
Lemma flattenSegment_cases segment :
  flattenSegment segment =
    match segment with
    | JString s => Some s
    | JObject fields =>
        match Json.assoc "text" fields with
        | Some (JString text) => Some text
        | _ => None
        end
    | _ => None
    end.
Proof.
  destruct segment; try done.
  unfold flattenSegment, Json.hasProp, Json.prop, Json.isObjectLike. cbn.
  by destruct (Json.assoc "text" fields) as [[]|].
Qed.

(** C9 (as amended): for every content value, [flattenContent] returns
    a string value as it is; for an array, the texts of its elements
    (string elements as they are, object elements through their [text]
    field), the empty ones dropped, joined with a space followed by a
    newline; for a bare object, its [text] field when it is a string;
    and no text otherwise. *)
Theorem flattenContent_rule (value : option JsonValue) :
  flattenContent value = Reading.flattenContent_sep (" " +:+ JsString.nl) value.
Proof.
  destruct value as [[| | |s|items|fields]|]; try done.
  - unfold flattenContent, Reading.flattenContent_sep.
    rewrite partTexts_filter. by destruct (filter _ _).
  - apply (flattenSegment_cases (JObject fields)).
Qed.

(** C9 (as stated) fails: the two pieces ["a"] and ["b"] are joined
    as ["a \nb"], not as ["a\nb"]. *)
Lemma flattenContent_newline_counterexample :
  flattenContent (Some (JArray [JString "a"; JString "b"]))
    = Some ("a " +:+ JsString.nl +:+ "b")
  /\ Reading.flattenContent_spec (Some (JArray [JString "a"; JString "b"]))
    = Some ("a" +:+ JsString.nl +:+ "b")
  /\ bool_decide (flattenContent (Some (JArray [JString "a"; JString "b"]))
                 = Reading.flattenContent_spec (Some (JArray [JString "a"; JString "b"])))
     = false.
Proof. by vm_compute. Qed.

Example flattenContent_mixed_array :
  flattenContent (Some (JArray [JString "a"; JString ""; JNull;
                                JObject [("text", JString "b")];
                                JObject [("text", JNumber 1)]]))
  = Some ("a " +:+ JsString.nl +:+ "b").
Proof. reflexivity. Qed.

(** ** Response extraction: the assistant text *)

Lemma scanMessages_step messages index :
  scanMessages messages (S index) =
    match messages !! index with
    | Some entry =>
        if Reading.isAssistantEntry entry && truthy (Reading.contentText entry)
        then Reading.contentText entry
        else scanMessages messages index
    | None => scanMessages messages index
    end.
Proof.
  cbn [scanMessages]. destruct (messages !! index) as [entry|]; [|done].
  unfold Reading.isAssistantEntry, Reading.contentText.
  destruct entry; cbn; try done.
  destruct (Json.assoc "role" fields) as [[| | |role| |]|]; cbn; try done.
  by destruct (String.eqb role "assistant").
Qed.

Lemma find_truthy_app (xs ys : list (option string)) :
  List.find truthy (xs ++ ys) =
    match List.find truthy xs with
    | Some x => Some x
    | None => List.find truthy ys
    end.
Proof.
  induction xs as [|x xs IH]; cbn; [done|]. by destruct (truthy x).
Qed.

Lemma truthy_find (xs : list (option string)) x :
  List.find truthy xs = Some x -> truthy x = true.
Proof. intros Hf. by apply find_some in Hf as [_ ?]. Qed.

(** The loop started at [index = n - 1] returns the first non-empty
    content among the assistant entries of the first [n] messages, the
    last one first. *)
Lemma scanMessages_find messages n :
  scanMessages messages n =
    mjoin (List.find truthy
             (map Reading.contentText
                  (filter (fun entry => Reading.isAssistantEntry entry = true)
                          (rev (take n messages))))).
Proof.
  induction n as [|n IH]; [done|].
  rewrite scanMessages_step.
  destruct (messages !! n) as [entry|] eqn:Hn.
  - rewrite (take_S_r _ _ _ Hn), rev_app_distr. cbn [rev app].
    rewrite filter_cons.
    destruct (Reading.isAssistantEntry entry) eqn:Ha; cbn [andb].
    + rewrite decide_True by done. cbn [map List.find].
      destruct (truthy (Reading.contentText entry)) eqn:Ht; [done|exact IH].
    + rewrite decide_False by done. exact IH.
  - apply lookup_ge_None in Hn.
    rewrite IH. by rewrite !take_ge by lia.
Qed.

(** C2 (as amended): for every parsed document, [extractAssistantText]
    returns the first non-empty text among these candidates, in order:
    (1) when a [messages] list exists, the flattened content of each
    entry whose role is ["assistant"], from the last such entry to the
    first; (2) the flattened [response.content]; (3) the flattened
    top-level [output].  When no candidate is a non-empty text it fails
    with the missing-assistant-message error. *)
Theorem extractAssistantText_scanning (parsed : JsonValue) :
  extractAssistantText parsed = Reading.firstText (Reading.candidates_scanning parsed).
Proof.
  unfold Reading.firstText, Reading.candidates_scanning.
  rewrite find_truthy_app.
  unfold extractAssistantText.
  destruct (Json.isObjectLike parsed) eqn:Hobj; cbn [negb].
  2:{ assert (Hp : forall k, Json.prop k parsed = None) by (intros k; by destruct parsed).
      unfold Reading.messagesOf, Reading.responseText, Reading.outputText.
      by rewrite !Hp. }
  assert (Hscan :
    match Json.prop "messages" parsed with
    | Some (JArray messages) => scanMessages messages (length messages)
    | _ => None
    end = mjoin (List.find truthy
        (map Reading.contentText
           (filter (fun entry => Reading.isAssistantEntry entry = true)
              (rev (Reading.messagesOf parsed)))))).
  { unfold Reading.messagesOf.
    destruct (Json.prop "messages" parsed) as [[| | | |messages|]|]; try done.
    by rewrite scanMessages_find, firstn_all. }
  rewrite Hscan.
  destruct (List.find truthy (map _ _)) as [x|] eqn:Hfind; cbn [mjoin option_join].
  - pose proof (truthy_find _ _ Hfind) as Ht. destruct x as [text|]; [done|discriminate].
  - cbn [List.find]. unfold Reading.responseText, Reading.outputText.
    destruct (Json.prop "response" parsed) as [response|] eqn:Hr.
    + destruct (Json.isObjectLike response) eqn:Hro.
      * destruct (truthy (flattenContent (Json.prop "content" response))) eqn:Ht.
        -- destruct (flattenContent (Json.prop "content" response)); [done|discriminate].
        -- destruct (flattenContent (Json.prop "output" parsed)) as [t|]; [|done].
           by destruct (truthy (Some t)).
      * assert (Hp : Json.prop "content" response = None) by (by destruct response).
        rewrite Hp. cbn.
        destruct (flattenContent (Json.prop "output" parsed)) as [t|]; [|done].
        by destruct (truthy (Some t)).
    + cbn. destruct (flattenContent (Json.prop "output" parsed)) as [t|]; [|done].
      by destruct (truthy (Some t)).
Qed.

(** C2 (as stated) fails on
    [{"messages":[{"role":"assistant","content":"first"},
                  {"role":"assistant","content":""}]}]:
    the last assistant entry has an empty content, the document has no
    [response] and no [output], yet the loop goes on to the earlier
    assistant entry and returns ["first"]. *)
Lemma extractAssistantText_last_assistant_counterexample :
  extractAssistantText
    (JObject [("messages",
               JArray [JObject [("role", JString "assistant"); ("content", JString "first")];
                       JObject [("role", JString "assistant"); ("content", JString "")]])])
    = Ok "first"
  /\ Reading.extractAssistantText_spec
    (JObject [("messages",
               JArray [JObject [("role", JString "assistant"); ("content", JString "first")];
                       JObject [("role", JString "assistant"); ("content", JString "")]])])
    = Throw missingAssistantMessage.
Proof. by vm_compute. Qed.

Example extractAssistantText_messages :
  extractAssistantText
    (JObject [("messages",
               JArray [JObject [("role", JString "user"); ("content", JString "x")];
                       JObject [("role", JString "assistant"); ("content", JString "done")]])])
    = Ok "done".
Proof. reflexivity. Qed.

Example extractAssistantText_falls_back_to_output :
  extractAssistantText
    (JObject [("messages", JArray [JObject [("role", JString "user"); ("content", JString "x")]]);
              ("response", JObject [("content", JArray [])]);
              ("output", JString "from output")])
    = Ok "from output".
Proof. reflexivity. Qed.

(** ** Response extraction: parsing *)

Section Parsing.
Context `{JsonModule}.



End Parsing.


Example parseCodexJson_last_brace :
  @parseCodexJson (Fixtures.tableParser [("{}", JObject [])]) ("warming up" +:+ JsString.nl +:+ "{}  ")
    = Ok (JObject []).
Proof. reflexivity. Qed.

Example parseCodexJson_not_json :
  @parseCodexJson (Fixtures.tableParser [("{}", JObject [])]) "not json"
    = Throw (newError "Codex CLI emitted invalid JSON: not json").
Proof. reflexivity. Qed.

(** ** Prompt documents: the two preread lists *)

Module InsertionMapFacts.
Import InsertionMap.

Lemma has_true key m : has key m = true <-> key ∈ map fst m.
Proof.
  unfold has. rewrite existsb_exists, list_elem_of_fmap.
  split.
  - intros ([k v] & Hin & Heq). apply String.eqb_eq in Heq. cbn in Heq. subst.
    exists (key, v). split; [done|]. by apply list_elem_of_In.
  - intros ([k v] & -> & Hin). exists (k, v). split; [by apply list_elem_of_In|].
    apply String.eqb_refl.
Qed.

Lemma has_false key m : has key m = false <-> key ∉ map fst m.
Proof. rewrite <- has_true. by destruct (has key m). Qed.

Lemma set_fresh key value m : has key m = false -> set key value m = m ++ [(key, value)].
Proof.
  induction m as [|[k v] m IH]; [done|].
  unfold has. cbn. destruct (String.eqb k key) eqn:E; [done|].
  cbn. intros Hm. by rewrite IH.
Qed.

Lemma diagonal_values m : diagonal m -> values m = map fst m.
Proof.
  unfold values. induction 1 as [|[k v] m Hkv _ IH]; [done|].
  cbn in *. by rewrite IH, Hkv.
Qed.

End InsertionMapFacts.

Section PrereadFacts.
Context `{PathModule} `{YamlParser}.
Import InsertionMap InsertionMapFacts.

Lemma addResolved_values unique attachment :
  diagonal unique ->
  diagonal (addResolved unique attachment)
  /\ values (addResolved unique attachment) =
       if bool_decide (path_resolve attachment ∈ values unique)
       then values unique
       else values unique ++ [path_resolve attachment].
Proof.
  intros Hd. unfold addResolved.
  destruct (has (path_resolve attachment) unique) eqn:Hhas; cbn [negb].
  - split; [done|]. apply has_true in Hhas. rewrite <- diagonal_values in Hhas by done.
    by rewrite bool_decide_true.
  - rewrite set_fresh by done. split.
    + apply Forall_app; split; [done|]. by constructor.
    + apply has_false in Hhas. rewrite <- diagonal_values in Hhas by done.
      rewrite bool_decide_false by done.
      unfold values. by rewrite map_app.
Qed.

Lemma addGuideline_values patterns overrides unique attachment :
  diagonal unique ->
  diagonal (addGuideline patterns overrides unique attachment)
  /\ values (addGuideline patterns overrides unique attachment) =
       if classifiedGuideline patterns overrides (path_resolve attachment)
          && negb (bool_decide (path_resolve attachment ∈ values unique))
       then values unique ++ [path_resolve attachment]
       else values unique.
Proof.
  intros Hd. unfold addGuideline, classifiedGuideline.
  set (p := path_resolve attachment).
  assert (Hset : diagonal (if negb (has p unique) then set p p unique else unique)
     /\ values (if negb (has p unique) then set p p unique else unique)
        = if negb (bool_decide (p ∈ values unique))
          then values unique ++ [p] else values unique).
  { pose proof (addResolved_values unique attachment Hd) as Hr.
    unfold addResolved in Hr. fold p in Hr.
    destruct Hr as [Hr1 Hr2]. split; [done|]. rewrite Hr2. by case_bool_decide. }
  destruct (overridesHas overrides p); cbn [orb andb]; [done|].
  destruct (isGuidelineFile _ _); cbn [andb]; done.
Qed.

Lemma foldl_addResolved_values attachments unique :
  diagonal unique ->
  diagonal (foldl addResolved unique attachments)
  /\ (forall file,
        file ∈ values (foldl addResolved unique attachments)
        <-> file ∈ values unique \/ file ∈ map path_resolve attachments).
Proof.
  revert unique. induction attachments as [|a rest IH]; intros unique Hd; cbn [foldl map].
  - split; [done|]. intros file. rewrite elem_of_nil. tauto.
  - destruct (addResolved_values unique a Hd) as [Hd' Hv].
    destruct (IH _ Hd') as [Hd'' Hin]. split; [done|].
    intros file. rewrite Hin, Hv, elem_of_cons.
    case_bool_decide; [|rewrite elem_of_app, list_elem_of_singleton];
      intuition (subst; auto).
Qed.

Lemma foldl_addGuideline_values patterns overrides attachments unique :
  diagonal unique ->
  diagonal (foldl (addGuideline patterns overrides) unique attachments)
  /\ (forall file,
        file ∈ values (foldl (addGuideline patterns overrides) unique attachments)
        <-> file ∈ values unique
            \/ (file ∈ map path_resolve attachments
                /\ classifiedGuideline patterns overrides file = true)).
Proof.
  revert unique. induction attachments as [|a rest IH]; intros unique Hd; cbn [foldl map].
  - split; [done|]. intros file. rewrite elem_of_nil. tauto.
  - destruct (addGuideline_values patterns overrides unique a Hd) as [Hd' Hv].
    destruct (IH _ Hd') as [Hd'' Hin]. split; [done|].
    intros file. rewrite Hin, Hv, elem_of_cons.
    destruct (classifiedGuideline patterns overrides (path_resolve a)) eqn:Hc; cbn [andb].
    + case_bool_decide; cbn [negb];
        [|rewrite elem_of_app, list_elem_of_singleton];
        intuition (subst; auto).
    + split; [intuition auto|].
      intros [?|[[->|?] Hcl]]; [by left| congruence | by right].
Qed.

(** [collectAttachmentFiles] returns the resolved attachments. *)
Lemma elem_of_collectAttachmentFiles attachments file :
  file ∈ collectAttachmentFiles attachments <-> file ∈ map path_resolve (listOf attachments).
Proof.
  unfold collectAttachmentFiles.
  destruct attachments as [[|a rest]|]; cbn [noAttachments listOf map];
    try (rewrite !elem_of_nil; tauto).
  destruct (foldl_addResolved_values (a :: rest) empty) as [_ Hin]; [constructor|].
  rewrite Hin. cbn. rewrite elem_of_nil. tauto.
Qed.

(** [collectGuidelineFiles] returns the resolved attachments that are
    in the override set or match the patterns. *)
Lemma elem_of_collectGuidelineFiles attachments patterns overrides file :
  file ∈ collectGuidelineFiles attachments patterns overrides
  <-> file ∈ map path_resolve (listOf attachments)
      /\ classifiedGuideline patterns overrides file = true.
Proof.
  unfold collectGuidelineFiles.
  destruct attachments as [[|a rest]|]; cbn [noAttachments listOf map];
    try (rewrite !elem_of_nil; tauto).
  destruct (foldl_addGuideline_values patterns overrides (a :: rest) empty)
    as [_ Hin]; [constructor|].
  rewrite Hin. cbn. rewrite elem_of_nil. tauto.
Qed.


(** C6: for every request, attachment list, pattern list and override
    set, the guideline list and the plain attachment list that
    [buildPromptDocument] renders in the preread block have no file
    path in common. *)
Theorem preread_lists_disjoint request attachments options :
  let guidelineFiles := fst (prereadLists request attachments options) in
  let attachmentFiles := snd (prereadLists request attachments options) in
  Forall (fun file => file ∉ attachmentFiles) guidelineFiles
  /\ Forall (fun file => file ∉ guidelineFiles) attachmentFiles
  /\ buildPromptDocument request attachments options =
       JsString.trim
         (JsString.join JsString.nl
            ((if (0 <? String.length
                         (buildMandatoryPrereadBlock guidelineFiles attachmentFiles))%nat
              then [JsString.nl; buildMandatoryPrereadBlock guidelineFiles attachmentFiles]
              else [])
             ++ [JsString.nl +:+ "[[ ## user_query ## ]]" +:+ JsString.nl;
                 JsString.trim (prompt request)])).
Proof.
  cbn zeta. unfold buildPromptDocument, prereadLists. cbn [fst snd].
  split_and!.
  - apply Forall_forall. intros file Hg Ha.
    by apply list_elem_of_filter in Ha as [Hn _].
  - apply Forall_forall. intros file Ha.
    by apply list_elem_of_filter in Ha as [Hn _].
  - done.
Qed.

End PrereadFacts.

(** ** Mirroring attachments into the workspace *)

Section MirrorFacts.
Context `{PathModule}.
Variable filesRoot : string.
Variable guidelineOriginals : gset string.

Lemma mirrorOne_step state attachment w :
  mirrorOne filesRoot guidelineOriginals state attachment w =
    match files w !! path_resolve attachment with
    | Some content =>
        (Ok (mirrorStep filesRoot guidelineOriginals state attachment),
         withFiles (<[path_join filesRoot
                        (mirrorName (baseNameOf attachment)
                           (default 0 (snd state !! baseNameOf attachment))) := content]>
                      (files w)) w)
    | None => (Throw (Fs.enoent "copyfile" (path_resolve attachment)), w)
    end.
Proof.
  destruct state as [[mirrored gm] counts].
  unfold mirrorOne, mirrorStep, IO_bind, Fs.copyFile, IO_ret, baseNameOf, mirrorName. cbn [snd].
  by destruct (files w !! path_resolve attachment).
Qed.

(** When every source exists the loop runs to its end, and it leaves
    every file of the world in place. *)
Lemma mirrorLoop_ok attachments state w :
  sourcesExist attachments w ->
  exists w',
    mirrorLoop filesRoot guidelineOriginals attachments state w
      = (Ok (foldl (mirrorStep filesRoot guidelineOriginals) state attachments), w')
    /\ (forall p, is_Some (files w !! p) -> is_Some (files w' !! p)).
Proof.
  revert state w. induction attachments as [|a rest IH]; intros state w Hex.
  - exists w. by cbn.
  - cbn [mirrorLoop foldl]. unfold IO_bind at 1. rewrite mirrorOne_step.
    destruct (Hex a) as [content Hc]; [by left|]. rewrite Hc.
    set (w1 := withFiles _ w).
    assert (Hkeep : forall p, is_Some (files w !! p) -> is_Some (files w1 !! p)).
    { intros p Hp. unfold w1. cbn. rewrite lookup_insert. by case_decide. }
    destruct (IH (mirrorStep filesRoot guidelineOriginals state a) w1) as (w' & Hrun & Hk).
    { intros x Hx. apply Hkeep, Hex. by right. }
    exists w'. split; [done|]. by auto.
Qed.

Lemma mirrorLoop_returns attachments state w state' w' :
  mirrorLoop filesRoot guidelineOriginals attachments state w = (Ok state', w') ->
  state' = foldl (mirrorStep filesRoot guidelineOriginals) state attachments.
Proof.
  revert state w. induction attachments as [|a rest IH]; intros state w.
  - cbn. by intros [= <- _].
  - cbn [mirrorLoop foldl]. unfold IO_bind at 1. rewrite mirrorOne_step.
    destruct (files w !! path_resolve a); [|done]. apply IH.
Qed.

Lemma earlierSameName_app done extra i a :
  i <= length done -> earlierSameName (done ++ extra) i a = earlierSameName done i a.
Proof. intros Hi. unfold earlierSameName. by rewrite take_app_le. Qed.

Lemma mirrorInvariant_step done state a :
  mirrorInvariant filesRoot guidelineOriginals done state ->
  mirrorInvariant filesRoot guidelineOriginals (done ++ [a])
                  (mirrorStep filesRoot guidelineOriginals state a).
Proof.
  destruct state as [[mirrored gm] counts]. intros (Hlen & Hnth & Hcount & Hgm).
  unfold mirrorStep.
  set (dest := path_resolve (path_join filesRoot (mirrorName (baseNameOf a) (default 0 (counts !! baseNameOf a))))).
  assert (Hdest : dest = mirroredPath filesRoot (done ++ [a]) (length done) a).
  { unfold dest, mirroredPath, earlierSameName.
    rewrite take_app_le, take_ge by lia. by rewrite Hcount. }
  assert (Hnth' : forall i x, (done ++ [a]) !! i = Some x ->
            (mirrored ++ [dest]) !! i = Some (mirroredPath filesRoot (done ++ [a]) i x)).
  { intros i x Hi. destruct (decide (i < length done)) as [Hlt|Hge].
    - rewrite lookup_app_l in Hi by done. rewrite lookup_app_l by lia.
      rewrite (Hnth _ _ Hi). unfold mirroredPath. by rewrite earlierSameName_app by lia.
    - rewrite lookup_app_r in Hi by lia. rewrite lookup_app_r by lia.
      rewrite Hlen. destruct (i - length done) as [|k] eqn:Hk; [|done].
      cbn in Hi. injection Hi as <-. cbn. replace i with (length done) by lia.
      by rewrite Hdest. }
  split_and!.
  - rewrite !length_app. cbn. lia.
  - exact Hnth'.
  - intros b. rewrite filter_app, length_app, filter_cons, filter_nil.
    rewrite lookup_insert. case_decide as Hb.
    + subst b. cbn [default]. rewrite Hcount. cbn. lia.
    + rewrite Hcount. cbn. lia.
  - intros m. case_bool_decide as Horig.
    + rewrite elem_of_union, elem_of_singleton, Hgm. split.
      * intros [(i & x & Hi & Hm & Hx)|Hm].
        2:{ subst m. exists (length done), a. rewrite !lookup_app_r by lia.
            rewrite Hlen, Nat.sub_diag. done. }
        exists i, x. apply lookup_lt_Some in Hi as Hlt.
        rewrite !lookup_app_l by lia. done.
      * intros (i & x & Hi & Hm & Hx).
        destruct (decide (i < length done)) as [Hlt|Hge].
        -- left. exists i, x. rewrite !lookup_app_l in * by lia. done.
        -- right. rewrite lookup_app_r in Hm by lia.
           apply lookup_lt_Some in Hi. rewrite length_app in Hi. cbn in Hi.
           replace (i - length mirrored) with 0 in Hm by lia. cbn in Hm. congruence.
    + rewrite Hgm. split.
      * intros (i & x & Hi & Hm & Hx).
        exists i, x. apply lookup_lt_Some in Hi as Hlt.
        rewrite !lookup_app_l by lia. done.
      * intros (i & x & Hi & Hm & Hx).
        destruct (decide (i < length done)) as [Hlt|Hge].
        -- exists i, x. rewrite !lookup_app_l in * by lia. done.
        -- rewrite lookup_app_r in Hi by lia.
           destruct (i - length done) as [|k]; [|done].
           cbn in Hi. injection Hi as <-. done.
Qed.

Lemma mirrorInvariant_foldl todo done state :
  mirrorInvariant filesRoot guidelineOriginals done state ->
  mirrorInvariant filesRoot guidelineOriginals (done ++ todo)
                  (foldl (mirrorStep filesRoot guidelineOriginals) state todo).
Proof.
  revert done state. induction todo as [|a rest IH]; intros done state Hinv; cbn [foldl].
  - by rewrite app_nil_r.
  - replace (done ++ a :: rest) with ((done ++ [a]) ++ rest) by (by rewrite <- app_assoc).
    apply IH. by apply mirrorInvariant_step.
Qed.

Lemma mirrorInvariant_initial : mirrorInvariant filesRoot guidelineOriginals [] ([], ∅, ∅).
Proof.
  split_and!; [done|done|done|].
  intros m. split; [set_solver|]. by intros (i & a & Hi & _).
Qed.
End MirrorFacts.

Section Mirroring.
Context `{PathModule}.

Lemma mirrorAttachments_returns attachments workspaceRoot guidelineOriginals w result w' :
  attachments <> [] ->
  mirrorAttachments (Some attachments) workspaceRoot guidelineOriginals w = (Ok result, w') ->
  exists mirrored,
    result = (Some mirrored, snd result)
    /\ mirrorOutcome attachments workspaceRoot guidelineOriginals mirrored (snd result).
Proof.
  intros Hne. unfold mirrorAttachments.
  destruct attachments as [|a0 rest]; [done|]. cbn [noAttachments listOf].
  unfold IO_bind at 1. cbn [Fs.mkdir IO_ret]. unfold IO_bind at 1.
  destruct (mirrorLoop _ _ _ _ w) as [[state|e] w1] eqn:Hloop; [|done].
  cbn [IO_ret]. intros [= <- <-].
  apply mirrorLoop_returns in Hloop. subst state.
  pose proof (mirrorInvariant_foldl (path_join workspaceRoot FILES_DIR) guidelineOriginals
                (a0 :: rest) [] _ (mirrorInvariant_initial _ _)) as Hinv.
  rewrite app_nil_l in Hinv.
  destruct (foldl _ _ _) as [[mirrored gm] counts].
  destruct Hinv as (Hlen & Hnth & _ & Hgm).
  exists mirrored. cbn [fst snd]. done.
Qed.

(** With every source in place, [mirrorAttachments] runs to its end. *)
Lemma mirrorAttachments_runs attachments workspaceRoot guidelineOriginals w :
  attachments <> [] ->
  sourcesExist attachments w ->
  exists mirrored guidelineMirrors w',
    mirrorAttachments (Some attachments) workspaceRoot guidelineOriginals w
      = (Ok (Some mirrored, guidelineMirrors), w')
    /\ mirrorOutcome attachments workspaceRoot guidelineOriginals mirrored guidelineMirrors.
Proof.
  intros Hne Hex. set (filesRoot := path_join workspaceRoot FILES_DIR).
  destruct (mirrorLoop_ok filesRoot guidelineOriginals attachments ([], ∅, ∅) w Hex)
    as (w' & Hloop & _).
  assert (Hrun : exists r, mirrorAttachments (Some attachments) workspaceRoot guidelineOriginals w
                   = (Ok r, w')).
  { unfold mirrorAttachments.
    destruct attachments as [|a0 rest]; [done|]. cbn [noAttachments listOf].
    unfold IO_bind at 1. cbn [Fs.mkdir IO_ret]. unfold IO_bind at 1.
    fold filesRoot. rewrite Hloop. eauto. }
  destruct Hrun as [r Hrun].
  destruct (mirrorAttachments_returns _ _ _ _ _ _ Hne Hrun) as (mirrored & Hr & Hout).
  exists mirrored, (snd r), w'. by rewrite Hrun, Hr.
Qed.

(** C5: for every non-empty attachment list whose files exist,
    [mirrorAttachments] returns one mirrored absolute path per
    attachment, in the order of the input; the attachment at position
    [i] is mirrored under its base name when no earlier attachment has
    that base name, and under the base name with the suffix [.k] when
    [k] earlier attachments have it; and the returned guideline
    mirrors are exactly the mirrored paths of the attachments whose
    resolved original path is in the guideline-originals set. *)
Theorem mirrorAttachments_names attachments workspaceRoot guidelineOriginals w :
  attachments <> [] ->
  sourcesExist attachments w ->
  let filesRoot := path_join workspaceRoot FILES_DIR in
  exists mirrored guidelineMirrors w',
    mirrorAttachments (Some attachments) workspaceRoot guidelineOriginals w
      = (Ok (Some mirrored, guidelineMirrors), w')
    /\ length mirrored = length attachments
    /\ (forall i a, attachments !! i = Some a ->
          mirrored !! i =
            Some (path_resolve
                    (path_join filesRoot
                       (mirrorName (baseNameOf a) (earlierSameName attachments i a)))))
    /\ (forall baseName, mirrorName baseName 0 = baseName)
    /\ (forall baseName k,
          mirrorName baseName (S k) = baseName +:+ "." +:+ JsString.ofNat (S k))
    /\ (forall m, m ∈ guidelineMirrors <->
          exists i a, attachments !! i = Some a /\ mirrored !! i = Some m
                      /\ path_resolve a ∈ guidelineOriginals).
Proof.
  intros Hne Hex filesRoot.
  destruct (mirrorAttachments_runs attachments workspaceRoot guidelineOriginals w Hne Hex)
    as (mirrored & gm & w' & Hrun & Hlen & Hnth & Hgm).
  exists mirrored, gm, w'. split_and!; done.
Qed.

End Mirroring.

(** ** The POSIX path functions *)

Module PosixFacts.
Import Posix.

Lemma split_slashFree s : Forall slashFree (JsString.split "/" s).
Proof.
  induction s as [|c s IH]; cbn.
  - by repeat constructor.
  - destruct (Ascii.eqb c "/") eqn:Hc.
    + constructor; [done|exact IH].
    + destruct (JsString.split "/" s) as [|piece pieces].
      * repeat constructor. unfold slashFree. cbn. by rewrite Hc.
      * apply Forall_cons in IH as [Hp Hps]. constructor; [|done].
        unfold slashFree in *. cbn. by rewrite Hc.
Qed.

Lemma split_one s : slashFree s -> JsString.split "/" s = [s].
Proof.
  unfold slashFree. induction s as [|c s IH]; cbn; [done|].
  destruct (Ascii.eqb c "/"); [done|]. cbn. intros Hs. by rewrite IH.
Qed.

Lemma split_append s t :
  slashFree s -> JsString.split "/" (s +:+ String "/" t) = s :: JsString.split "/" t.
Proof.
  unfold slashFree. induction s as [|c s IH]; [done|].
  simpl. destruct (Ascii.eqb c "/"); [done|]. simpl. intros Hs. by rewrite IH.
Qed.

Lemma split_join segments :
  segments <> [] -> Forall slashFree segments ->
  JsString.split "/" (JsString.join "/" segments) = segments.
Proof.
  induction segments as [|s rest IH]; [done|]. intros _ Hall.
  apply Forall_cons in Hall as [Hs Hrest].
  destruct rest as [|s' rest'].
  - cbn. by apply split_one.
  - change (JsString.join "/" (s :: s' :: rest'))
      with (s +:+ String "/" (JsString.join "/" (s' :: rest'))).
    rewrite split_append by done. by rewrite IH.
Qed.

Lemma normalizeStep_plain kept segment :
  Forall plain kept -> slashFree segment ->
  Forall plain (normalizeStep false kept segment).
Proof.
  intros Hk Hs. unfold normalizeStep.
  destruct (String.eqb_spec segment "") as [->|Hne]; cbn [orb]; [done|].
  destruct (String.eqb_spec segment ".") as [->|Hnd]; cbn [orb]; [done|].
  destruct (String.eqb_spec segment "..") as [->|Hndd].
  - destruct kept as [|top below]; [done|]. cbn [andb].
    by apply Forall_cons in Hk as [_ ?].
  - by constructor.
Qed.

Lemma foldl_normalizeStep_plain segments kept :
  Forall plain kept -> Forall slashFree segments ->
  Forall plain (foldl (normalizeStep false) kept segments).
Proof.
  revert kept. induction segments as [|s rest IH]; intros kept Hk Hs; cbn [foldl]; [done|].
  apply Forall_cons in Hs as [Hs Hrest].
  apply IH; [|done]. by apply normalizeStep_plain.
Qed.

Lemma foldl_normalizeStep_keeps segments kept :
  Forall plain segments ->
  foldl (normalizeStep false) kept segments = rev segments ++ kept.
Proof.
  revert kept. induction segments as [|s rest IH]; intros kept Hs; cbn [foldl]; [done|].
  apply Forall_cons in Hs as [(_ & Hne & Hnd & Hndd) Hrest].
  rewrite IH by done. unfold normalizeStep.
  apply String.eqb_neq in Hne, Hnd, Hndd. rewrite Hne, Hnd, Hndd. cbn [orb rev].
  by rewrite <- app_assoc.
Qed.

Lemma normalizeSegments_plain segments :
  Forall slashFree segments -> Forall plain (normalizeSegments false segments).
Proof.
  intros Hs. unfold normalizeSegments.
  apply Forall_forall. intros x Hx. apply list_elem_of_In, in_rev, list_elem_of_In in Hx.
  revert x Hx. apply Forall_forall. by apply foldl_normalizeStep_plain.
Qed.

Lemma plain_slashFree segments : Forall plain segments -> Forall slashFree segments.
Proof. intros Hp. eapply Forall_impl; [exact Hp|]. by intros s [? _]. Qed.

Lemma resolve_rooted cwd p :
  exists segments,
    Forall plain segments /\ resolve cwd p = "/" +:+ JsString.join "/" segments.
Proof.
  unfold resolve. eexists. split; [|reflexivity].
  apply normalizeSegments_plain, split_slashFree.
Qed.

Lemma isAbsolute_rooted s : isAbsolute ("/" +:+ s) = true.
Proof.
  unfold isAbsolute. simpl. destruct (Ascii.ascii_dec "/" "/"); [|done]. by destruct s.
Qed.

Lemma resolve_plain cwd segments :
  Forall plain segments ->
  resolve cwd ("/" +:+ JsString.join "/" segments) = "/" +:+ JsString.join "/" segments.
Proof.
  intros Hp. unfold resolve.
  rewrite isAbsolute_rooted.
  change (JsString.split "/" ("/" +:+ JsString.join "/" segments))
    with ("" :: JsString.split "/" (JsString.join "/" segments)).
  f_equal. f_equal.
  destruct segments as [|s rest]; [done|].
  rewrite split_join; [|discriminate|by apply plain_slashFree].
  unfold normalizeSegments.
  change (foldl (normalizeStep false) [] ("" :: s :: rest))
    with (foldl (normalizeStep false) [] (s :: rest)).
  rewrite foldl_normalizeStep_keeps by done.
  by rewrite app_nil_r, rev_involutive.
Qed.

(** [path.resolve] returns a normalised absolute path, which it
    leaves as it is. *)
Lemma resolve_idempotent cwd p : resolve cwd (resolve cwd p) = resolve cwd p.
Proof.
  destruct (resolve_rooted cwd p) as (segments & Hp & ->).
  by apply resolve_plain.
Qed.
End PosixFacts.

(** ** Guideline status across mirroring *)

Section RoundTrip.
Context `{PathModule} `{YamlParser}.

(** C4: for every request whose attachment files exist, with
    [path.resolve] leaving resolved paths as they are: every
    normalised attachment that the guideline patterns match before
    mirroring is in the guideline-originals set, its mirrored copy (the
    path at the same position of the mirrored list) is in the
    guideline mirrors that [mirrorAttachments] returns, and, that set
    being the override set of the classifier run on the mirrored paths,
    the copy is in the guideline list of the prompt document and not
    in its plain attachment list. *)
Theorem guideline_survives_mirroring request workspaceRoot w :
  (forall p, path_resolve (path_resolve p) = path_resolve p) ->
  let attachments := normalizeAttachments (attachments request) in
  let originalGuidelines := originalGuidelinesOf attachments (guideline_patterns request) in
  sourcesExist (listOf attachments) w ->
  exists mirrored guidelineMirrors w',
    mirrorAttachments attachments workspaceRoot originalGuidelines w
      = (Ok (mirrored, guidelineMirrors), w')
    /\ length (listOf mirrored) = length (listOf attachments)
    /\ forall i a,
         listOf attachments !! i = Some a ->
         isGuidelineFile (JsString.join "/" (JsString.split path_sep (path_resolve a)))
                         (guideline_patterns request) = true ->
         exists m,
           listOf mirrored !! i = Some m
           /\ path_resolve a ∈ collectGuidelineFiles attachments (guideline_patterns request) None
           /\ path_resolve a ∈ originalGuidelines
           /\ m ∈ guidelineMirrors
           /\ m ∈ fst (prereadLists request mirrored
                         (mirroredPromptOptions request guidelineMirrors))
           /\ m ∉ snd (prereadLists request mirrored
                         (mirroredPromptOptions request guidelineMirrors)).
Proof.
  intros Hidem attachments originalGuidelines Hex.
  destruct attachments as [[|a0 rest]|] eqn:Hatt.
  - (* Some [] *)
    exists None, ∅, w. split; [done|]. split; [done|]. intros i a Hi. done.
  - destruct (mirrorAttachments_runs (a0 :: rest) workspaceRoot originalGuidelines w)
      as (mirrored & gm & w' & Hrun & Hlen & Hnth & Hgm); [discriminate|done|].
    exists (Some mirrored), gm, w'. split; [done|]. split; [done|].
    intros i a Hi Hmatch. cbn [listOf] in Hi |- *.
    exists (path_resolve (path_join (path_join workspaceRoot FILES_DIR)
              (mirrorName (baseNameOf a) (earlierSameName (a0 :: rest) i a)))).
    set (m := path_resolve _).
    assert (Hcollected :
      path_resolve a ∈ collectGuidelineFiles (Some (a0 :: rest)) (guideline_patterns request) None).
    { apply elem_of_collectGuidelineFiles. split.
      - cbn [listOf]. apply list_elem_of_fmap. exists a. split; [done|].
        by apply list_elem_of_lookup_2 in Hi.
      - unfold classifiedGuideline. rewrite Hmatch. by rewrite orb_true_r. }
    assert (Horig : path_resolve a ∈ originalGuidelines).
    { unfold originalGuidelines, originalGuidelinesOf. apply elem_of_list_to_set.
      apply list_elem_of_fmap. exists (path_resolve a). by rewrite Hidem. }
    assert (Hm : m ∈ gm).
    { apply Hgm. exists i, a. split; [done|]. split; [by apply Hnth|done]. }
    assert (Hguide : m ∈ fst (prereadLists request (Some mirrored)
                                 (mirroredPromptOptions request gm))).
    { unfold prereadLists. cbn [fst]. apply elem_of_collectGuidelineFiles. split.
      - cbn [listOf]. apply list_elem_of_fmap. exists m. split.
        + unfold m. by rewrite Hidem.
        + eapply list_elem_of_lookup_2. by apply Hnth.
      - unfold classifiedGuideline, effectiveOverrides, mirroredPromptOptions, overridesHas.
        cbn. by rewrite bool_decide_true. }
    split_and!; try done.
    + by apply Hnth.
    + unfold prereadLists in *. cbn [fst snd] in *.
      intros Hplain. by apply list_elem_of_filter in Hplain as [Hn _].
  - exists None, ∅, w. split; [done|]. split; [done|]. intros i a Hi. done.
Qed.
End RoundTrip.

(** ** Batch dispatch of the session-based provider *)

Section BatchFacts.
Context `{PathModule} `{YamlParser} `{Subagent}.
Variable config : VSCodeResolvedConfig.

Lemma readFile_files path w :
  files (snd (Fs.readFile path w)) = files w
  /\ readLog (snd (Fs.readFile path w)) = readLog w ++ [path].
Proof. unfold Fs.readFile. by destruct (files w !! path). Qed.

(** The reading loop, when every remaining file exists: one response
    per reference, in order, and only the read log changes. *)
Lemma readResponses_ok session normalizedRequests combined remaining :
  forall index responses w,
    (forall ref, ref ∈ remaining -> is_Some (files w !! ref)) ->
    exists out w2,
      readResponses session normalizedRequests combined index remaining responses w
        = (Ok (responses ++ out), w2)
      /\ length out = length remaining
      /\ files w2 = files w
      /\ readLog w2 = readLog w ++ remaining
      /\ forall k ref,
           remaining !! k = Some ref ->
           exists response,
             out !! k = Some response
             /\ files w !! ref = Some (text response)
             /\ vb_session (raw response) = session
             /\ vb_attachments (raw response)
                = match normalizedRequests !! (index + k) with
                  | Some nr => snd nr
                  | None => None
                  end
             /\ vb_allAttachments (raw response) = combined
             /\ vb_responseFile (raw response) = Some ref.
Proof.
  induction remaining as [|ref rest IH]; intros index responses w Hex.
  - exists [], w. cbn. rewrite !app_nil_r. split_and!; try done.
  - cbn [readResponses]. unfold IO_bind at 1.
    destruct (Hex ref) as [content Hc]; [by left|].
    pose proof (readFile_files ref w) as [Hf Hl].
    unfold Fs.readFile in *. rewrite Hc in *. cbn [snd] in Hf, Hl.
    set (w1 := {| files := files w; env := env w; exec := exec w;
                  readLog := readLog w ++ [ref]; tempCount := tempCount w |}) in *.
    set (r := {| text := content; raw := _ |}).
    destruct (IH (S index) (responses ++ [r]) w1) as (out & w2 & Hrun & Hlen & Hf2 & Hl2 & Hout).
    { intros x Hx. cbn. apply Hex. by right. }
    exists (r :: out), w2. rewrite Hrun, <- app_assoc. cbn [app length].
    split_and!; try done.
    + by rewrite Hlen.
    + rewrite Hl2. cbn. by rewrite <- app_assoc.
    + intros [|k] x Hk.
      * cbn in Hk. injection Hk as <-. exists r. cbn. rewrite Nat.add_0_r. done.
      * cbn in Hk. destruct (Hout k x Hk) as (response & ? & ? & ? & Hatt & ? & ?).
        exists response. cbn [lookup list_lookup]. split_and!; try done.
        rewrite Hatt. by replace (S index + k) with (index + S k) by lia.
Qed.

Lemma length_nonzero {A} (l : list A) : l <> [] -> (length l =? 0)%nat = false.
Proof. by destruct l. Qed.

(** C1: for a batch of N >= 1 requests with dry-run disabled, once the
    session has answered: when its list of response references has a
    length other than N, [invokeBatch] throws and returns no response
    (the count-mismatch error when the session's exit code is zero,
    the session-failure error otherwise), reading no file; when the
    session succeeded, the length is N and the referenced files can be
    read, [invokeBatch] reads the references in order and returns N
    responses in request order, the i-th with the content of the i-th
    reference as its text and with the i-th request's own normalised
    attachment list in its payload. *)
Theorem invokeBatch_count_check requests session w w1 :
  dryRun config = false ->
  requests <> [] ->
  dispatchBatchAgent (batchOptions config requests) w = (Ok session, w1) ->
  (forall refs,
      responseFiles session = Some refs -> length refs <> length requests ->
      exists e,
        invokeBatch config requests w = (Throw e, w1)
        /\ (batch_exitCode session = 0%Z ->
            e = countMismatchError (length refs) (length requests)))
  /\ (forall refs,
        batch_exitCode session = 0%Z ->
        responseFiles session = Some refs ->
        length refs = length requests ->
        (forall ref, ref ∈ refs -> is_Some (files w1 !! ref)) ->
        exists responses w2,
          invokeBatch config requests w = (Ok responses, w2)
          /\ length responses = length requests
          /\ readLog w2 = readLog w1 ++ refs
          /\ forall i request ref,
               requests !! i = Some request -> refs !! i = Some ref ->
               exists response,
                 responses !! i = Some response
                 /\ files w1 !! ref = Some (text response)
                 /\ vb_attachments (raw response) = normalizeAttachments (attachments request)
                 /\ vb_responseFile (raw response) = Some ref).
Proof.
  intros Hdry Hne Hdispatch. unfold invokeBatch.
  rewrite (length_nonzero _ Hne). unfold IO_bind at 1. rewrite Hdispatch. unfold IO_bind at 1.
  rewrite Hdispatch.
  split.
  - intros refs Hrefs Hlen.
    rewrite Hrefs. cbn [isDefined negb orb default from_option id].
    destruct (Z.eqb_spec (batch_exitCode session) 0) as [Hz|Hnz]; cbn [negb orb].
    + rewrite Hdry. apply Nat.eqb_neq in Hlen. rewrite Hlen. cbn [negb].
      eexists. split; [reflexivity|done].
    + eexists. split; [reflexivity|done].
  - intros refs Hz Hrefs Hlen Hex.
    rewrite Hrefs, Hz. cbn [isDefined negb orb default from_option id Z.eqb]. rewrite Hdry.
    rewrite Hlen, Nat.eqb_refl. cbn [negb].
    destruct (readResponses_ok session (map (normalizeRequest) requests)
                (mergeAttachments (map snd (map normalizeRequest requests)))
                refs 0 [] w1 Hex)
      as (out & w2 & Hrun & Hlen' & _ & Hlog & Hout).
    exists out, w2. rewrite Hrun. split; [done|]. split; [lia|]. split; [done|].
    intros i request ref Hi Href.
    destruct (Hout i ref Href) as (response & Hr & Ht & _ & Hatt & _ & Hfile).
    exists response. split_and!; try done.
    rewrite Hatt. cbn. rewrite list_lookup_fmap, Hi. done.
Qed.

(** C10: in dry-run mode, once the session has succeeded with some
    list of response references, of whatever length, [invokeBatch]
    returns one response per request, each with the empty text and the
    request's own normalised attachment list; it leaves the world as
    the session left it, so no response file is read, and the number
    of references is not compared with the number of requests. *)
Theorem invokeBatch_dry_run requests session refs w w1 :
  dryRun config = true ->
  dispatchBatchAgent (batchOptions config requests) w = (Ok session, w1) ->
  batch_exitCode session = 0%Z ->
  responseFiles session = Some refs ->
  exists responses,
    invokeBatch config requests w
      = (Ok responses, match requests with [] => w | _ :: _ => w1 end)
    /\ length responses = length requests
    /\ Forall (fun response => text response = "") responses
    /\ readLog (snd (invokeBatch config requests w))
       = readLog (match requests with [] => w | _ :: _ => w1 end)
    /\ forall i request,
         requests !! i = Some request ->
         exists response,
           responses !! i = Some response
           /\ text response = ""
           /\ vb_attachments (raw response) = normalizeAttachments (attachments request)
           /\ vb_responseFile (raw response) = None.
Proof.
  intros Hdry Hdispatch Hz Hrefs. unfold invokeBatch.
  destruct requests as [|request0 rest] eqn:Hreq.
  - exists []. cbn. split_and!; try done.
  - rewrite <- Hreq in *. assert (Hne : requests <> []) by (by rewrite Hreq).
    rewrite (length_nonzero _ Hne). unfold IO_bind at 1. rewrite Hdispatch.
    unfold IO_bind at 1. rewrite Hdispatch.
    rewrite Hrefs, Hz, Hdry. cbn [isDefined negb orb Z.eqb IO_ret snd].
    eexists. split; [reflexivity|].
    split_and!.
    + by rewrite !length_map.
    + apply Forall_forall. intros r Hr.
      apply list_elem_of_fmap in Hr as (nr & -> & _). done.
    + done.
    + intros i request Hi. eexists. rewrite !list_lookup_fmap, Hi. cbn. done.
Qed.
End BatchFacts.


(** ** The memoised environment check *)

Section MemoFacts.
Context `{PathModule} `{YamlParser} `{JsonModule} `{OsModule}.








End MemoFacts.

(** ** The default runner: time-out and cancellation *)

Module RunnerFacts.
Import Runner RunnerInvariant.





End RunnerFacts.

(** ** Worked examples

    The theorems above at the fixtures of the provider tests: a POSIX
    machine whose working directory is [/work], the suffix matcher, a
    scripted session harness and a runner that prints a fixed
    document. *)

Example posix_resolve_relative :
  Posix.resolve "/work" "src/../docs//a.md" = "/work/docs/a.md".
Proof. reflexivity. Qed.

Example posix_join_files :
  Posix.join "/tmp/agentv-codex-0" "files" = "/tmp/agentv-codex-0/files".
Proof. reflexivity. Qed.

Example posix_basename_file :
  Posix.basename "/work/docs/a.md" = "a.md".
Proof. reflexivity. Qed.

Example suffix_matcher_instructions :
  @isGuidelineFile Fixtures.suffixMatcher "/work/prompts/python.instructions.md"
    (Some ["**/*.instructions.md"]) = true.
Proof. reflexivity. Qed.

Section WorkedExamples.
Import Fixtures.
#[local] Existing Instance workPath.
#[local] Existing Instance suffixMatcher.
#[local] Existing Instance linux.
#[local] Existing Instance knownDocuments.

(** C5 at three attachments that share the base name [notes.md]. *)
Lemma mirrorAttachments_names_witness :
  threeNotes <> []
  /\ sourcesExist threeNotes notesWorld
  /\ exists mirrored guidelineMirrors w',
       mirrorAttachments (Some threeNotes) "/tmp/agentv-codex-0"
                         {[ "/work/docs/notes.md" ]} notesWorld
         = (Ok (Some mirrored, guidelineMirrors), w')
       /\ length mirrored = 3.
Proof.
  assert (Hne : threeNotes <> []) by discriminate.
  assert (Hex : sourcesExist threeNotes notesWorld).
  { intros a Ha. repeat (apply elem_of_cons in Ha as [->|Ha]);
      [vm_compute; eauto ..|by apply elem_of_nil in Ha]. }
  split; [exact Hne|]. split; [exact Hex|].
  destruct (mirrorAttachments_names threeNotes "/tmp/agentv-codex-0"
              {[ "/work/docs/notes.md" ]} notesWorld Hne Hex)
    as (mirrored & gm & w' & Hrun & Hlen & _).
  exists mirrored, gm, w'. split; [exact Hrun|exact Hlen].
Defined.

Example mirrorAttachments_three_notes :
  match fst (mirrorAttachments (Some threeNotes) "/tmp/agentv-codex-0"
                               {[ "/work/docs/notes.md" ]} notesWorld) with
  | Ok (mirrored, guidelineMirrors) => Some (mirrored, elements guidelineMirrors)
  | Throw _ => None
  end
  = Some (Some ["/tmp/agentv-codex-0/files/notes.md";
                "/tmp/agentv-codex-0/files/notes.md.1";
                "/tmp/agentv-codex-0/files/notes.md.2"],
          ["/tmp/agentv-codex-0/files/notes.md.1"]).
Proof. by vm_compute. Qed.

(** C4 at the request of the provider test: its two attachments exist,
    and the first, which matches [**/*.instructions.md], is mirrored to a
    path of the guideline list. *)
Lemma guideline_survives_mirroring_witness :
  (forall p, path_resolve (path_resolve p) = path_resolve p)
  /\ sourcesExist (listOf (normalizeAttachments (attachments guidelineRequest))) sourceWorld
  /\ exists mirrored guidelineMirrors w',
       mirrorAttachments (normalizeAttachments (attachments guidelineRequest))
         "/tmp/agentv-codex-0"
         (originalGuidelinesOf (normalizeAttachments (attachments guidelineRequest))
                               (guideline_patterns guidelineRequest))
         sourceWorld
         = (Ok (mirrored, guidelineMirrors), w')
       /\ length (listOf mirrored) = 2
       /\ exists m,
            listOf mirrored !! 0 = Some m
            /\ m ∈ guidelineMirrors
            /\ m ∈ fst (prereadLists guidelineRequest mirrored
                          (mirroredPromptOptions guidelineRequest guidelineMirrors)).
Proof.
  assert (Hidem : forall p, path_resolve (path_resolve p) = path_resolve p)
    by apply PosixFacts.resolve_idempotent.
  assert (Hex : sourcesExist (listOf (normalizeAttachments (attachments guidelineRequest)))
                             sourceWorld).
  { intros a Ha. vm_compute in Ha. repeat (apply elem_of_cons in Ha as [->|Ha]);
      [vm_compute; eauto ..|by apply elem_of_nil in Ha]. }
  split; [exact Hidem|]. split; [exact Hex|].
  destruct (guideline_survives_mirroring guidelineRequest "/tmp/agentv-codex-0" sourceWorld
              Hidem Hex) as (mirrored & gm & w' & Hrun & Hlen & Hall).
  exists mirrored, gm, w'. split; [exact Hrun|]. split; [exact Hlen|].
  destruct (Hall 0 "/work/prompts/python.instructions.md" eq_refl eq_refl)
    as (m & Hm & _ & _ & Hmirror & Hguide & _).
  exists m. split; [exact Hm|]. split; [exact Hmirror|exact Hguide].
Defined.

Example prompt_after_mirroring :
  prereadLists guidelineRequest
    (Some ["/tmp/agentv-codex-0/files/python.instructions.md";
           "/tmp/agentv-codex-0/files/main.py"])
    (mirroredPromptOptions guidelineRequest
       {[ "/tmp/agentv-codex-0/files/python.instructions.md" ]})
  = (["/tmp/agentv-codex-0/files/python.instructions.md"],
     ["/tmp/agentv-codex-0/files/main.py"]).
Proof. by vm_compute. Qed.

(** C1 at the batch of the provider test: two requests, two response
    files. *)
Lemma invokeBatch_count_check_witness :
  dryRun (codeCommand false) = false
  /\ twoRequests <> []
  /\ exists responses w2,
       @invokeBatch _ _ (scriptedSubagent twoResponses twoResponseFiles)
                    (codeCommand false) twoRequests emptyWorld
         = (Ok responses, w2)
       /\ length responses = length twoRequests.
Proof.
  split; [reflexivity|]. split; [discriminate|].
  pose proof (@invokeBatch_count_check _ _ (scriptedSubagent twoResponses twoResponseFiles)
                (codeCommand false) twoRequests twoResponses emptyWorld _
                eq_refl ltac:(discriminate) eq_refl) as [_ Hok].
  destruct (Hok ["/tmp/res1.md"; "/tmp/res2.md"] eq_refl eq_refl eq_refl)
    as (responses & w2 & Hrun & Hlen & _ & _).
  { intros ref Ha. repeat (apply elem_of_cons in Ha as [->|Ha]);
      [vm_compute; eauto ..|by apply elem_of_nil in Ha]. }
  exists responses, w2. split; [exact Hrun|exact Hlen].
Defined.

Example invokeBatch_two_responses :
  match fst (@invokeBatch _ _ (scriptedSubagent twoResponses twoResponseFiles)
                          (codeCommand false) twoRequests emptyWorld) with
  | Ok responses =>
      Some (map (fun r => (text r, vb_attachments (raw r), vb_responseFile (raw r))) responses)
  | Throw _ => None
  end
  = Some [("resp-one", Some ["/work/a.txt"], Some "/tmp/res1.md");
          ("resp-two", Some ["/work/b.txt"], Some "/tmp/res2.md")].
Proof. by vm_compute. Qed.

Example invokeBatch_one_response_for_two :
  fst (@invokeBatch _ _ (scriptedSubagent oneResponse twoResponseFiles)
                    (codeCommand false) twoRequests emptyWorld)
  = Throw (newError "VS Code batch returned 1 responses for 2 requests").
Proof. by vm_compute. Qed.

(** C10 at a dry run whose session names one response file for two
    requests. *)
Lemma invokeBatch_dry_run_witness :
  dryRun (codeCommand true) = true
  /\ batch_exitCode oneResponse = 0%Z
  /\ responseFiles oneResponse = Some ["/tmp/res1.md"]
  /\ exists responses,
       fst (@invokeBatch _ _ (scriptedSubagent oneResponse [])
                         (codeCommand true) twoRequests emptyWorld)
         = Ok responses
       /\ length responses = 2
       /\ Forall (fun response => text response = "") responses.
Proof.
  split; [reflexivity|]. split; [reflexivity|]. split; [reflexivity|].
  destruct (@invokeBatch_dry_run _ _ (scriptedSubagent oneResponse [])
              (codeCommand true) twoRequests oneResponse ["/tmp/res1.md"] emptyWorld _
              eq_refl eq_refl eq_refl eq_refl)
    as (responses & Hrun & Hlen & Htext & _).
  exists responses. rewrite Hrun. split; [reflexivity|]. split; [exact Hlen|exact Htext].
Defined.


Example invoke_mirrors_and_cleans_up :
  let '(outcome, this, w) := invoke codexTarget guidelineRequest readySourceWorld in
  (match outcome with
   | Ok response => Some (text response, raw_attachments (raw response))
   | Throw _ => None
   end,
   validationRuns this,
   filter (fun path => Fs.isUnder "/tmp/agentv-codex-0" path = true)
          (map fst (map_to_list (files w))))
  = (Some ("done", Some ["/tmp/agentv-codex-0/files/python.instructions.md";
                         "/tmp/agentv-codex-0/files/main.py"]),
     1, []).
Proof. by vm_compute. Qed.

Example runner_abort_alone :
  let final := Runner.run (runOptions (Some 1000%Z) (Some {| aborted := false |}))
                          [Runner.AbortFired; Runner.ChildExited; Runner.ChildClose None] in
  Runner.settled final
    = Some (Ok {| stdout := ""; stderr := ""; exitCode := (-1)%Z; timedOut := Some false |})
  /\ Runner.delivered final = ["SIGTERM"].
Proof. by vm_compute. Qed.

Example runner_timeout :
  let final := Runner.run (runOptions (Some 1000%Z) None)
                          [Runner.StdoutData "par"; Runner.TimerExpired;
                           Runner.ChildExited; Runner.ChildClose None] in
  Runner.settled final
    = Some (Ok {| stdout := "par"; stderr := ""; exitCode := (-1)%Z; timedOut := Some true |})
  /\ Runner.delivered final = ["SIGTERM"].
Proof. by vm_compute. Qed.

Example runner_timer_after_exit :
  let final := Runner.run (runOptions (Some 1000%Z) None)
                          [Runner.ChildExited; Runner.TimerExpired;
                           Runner.ChildClose (Some 0%Z)] in
  Runner.settled final
    = Some (Ok {| stdout := ""; stderr := ""; exitCode := 0%Z; timedOut := Some true |})
  /\ Runner.delivered final = [].
Proof. by vm_compute. Qed.

Example runner_already_aborted :
  Runner.delivered (Runner.start (runOptions None (Some {| aborted := true |}))) = ["SIGTERM"]
  /\ Runner.timedOutFlag (Runner.start (runOptions None (Some {| aborted := true |}))) = false.
Proof. by vm_compute. Qed.

End WorkedExamples.

(* ================================================================== *)
(** * Further properties *)


(** ** Trimming *)

Module TrimFacts.
Import JsString.

Lemma trimStart_stop c s : isWhiteSpace c = false -> trimStart (String c s) = String c s.
Proof. cbn. by intros ->. Qed.

Lemma trimStart_head s :
  match trimStart s with
  | EmptyString => True
  | String c _ => isWhiteSpace c = false
  end.
Proof.
  induction s as [|c s IH]; cbn; [done|].
  destruct (isWhiteSpace c) eqn:Hc; [exact IH|exact Hc].
Qed.

Lemma trimStart_idem s : trimStart (trimStart s) = trimStart s.
Proof.
  pose proof (trimStart_head s) as Hh.
  destruct (trimStart s) as [|c t]; [done|]. by apply trimStart_stop.
Qed.







End TrimFacts.

(** ** Attachment lists and the preread block *)

Section ListFacts.
Context {A : Type} `{EqDecision A}.

Lemma remove_dups_fixed (l : list A) : NoDup l -> remove_dups l = l.
Proof.
  induction 1 as [|x l Hx _ IH]; [done|].
  cbn. destruct (decide_rel elem_of x l); [done|]. by rewrite IH.
Qed.

Lemma remove_dups_later (l1 l2 : list A) x :
  x ∈ l2 -> remove_dups (l1 ++ x :: l2) = remove_dups (l1 ++ l2).
Proof.
  intros Hx. induction l1 as [|y l1 IH]; cbn.
  - by destruct (decide_rel elem_of x l2).
  - rewrite IH.
    destruct (decide_rel elem_of y (l1 ++ x :: l2)) as [Hy|Hy];
      destruct (decide_rel elem_of y (l1 ++ l2)) as [Hy'|Hy']; try done.
    + exfalso. apply Hy'. rewrite elem_of_app, elem_of_cons in Hy.
      rewrite elem_of_app. intuition (subst; auto).
    + exfalso. apply Hy. rewrite elem_of_app in Hy'.
      rewrite elem_of_app, elem_of_cons. intuition auto.
Qed.

(** The elements of [l] in the order of their first occurrence. *)
Lemma NoDup_first_occurrences (l : list A) : NoDup (reverse (remove_dups (reverse l))).
Proof.
  eapply (NoDup_Permutation_proper); [apply reverse_Permutation|]. apply NoDup_remove_dups.
Qed.

Lemma filter_agree (P Q : A -> Prop) `{!forall x, Decision (P x)} `{!forall x, Decision (Q x)}
    (l : list A) :
  (forall x, x ∈ l -> P x <-> Q x) -> filter P l = filter Q l.
Proof.
  induction l as [|x l IH]; intros Hpq; [done|].
  rewrite !filter_cons.
  rewrite IH by (intros y Hy; apply Hpq; by right).
  pose proof (Hpq x ltac:(left)) as Hx.
  destruct (decide (P x)), (decide (Q x)); tauto || done.
Qed.

End ListFacts.

Section PrereadMore.
Context `{PathModule} `{YamlParser}.
Import InsertionMap InsertionMapFacts.

Lemma foldl_addResolved_first_occurrences attachments unique :
  diagonal unique -> NoDup (values unique) ->
  values (foldl addResolved unique attachments)
  = reverse (remove_dups (reverse (values unique ++ map path_resolve attachments))).
Proof.
  revert unique. induction attachments as [|a rest IH]; intros unique Hd Hn; cbn [foldl map].
  - rewrite app_nil_r, remove_dups_fixed, reverse_involutive; [done|].
    eapply NoDup_Permutation_proper; [apply reverse_Permutation|done].
  - destruct (addResolved_values unique a Hd) as [Hd' Hv].
    rewrite IH; [|done|].
    + rewrite Hv. case_bool_decide as Hin.
      * rewrite !reverse_app, reverse_cons, <- !(assoc_L (++)). cbn [app].
        rewrite remove_dups_later; [done|]. by apply elem_of_reverse.
      * by rewrite <- (assoc_L (++)).
    + rewrite Hv. case_bool_decide as Hin; [done|].
      apply NoDup_app. split_and!; [done| |apply NoDup_singleton].
      intros x Hx Hx'. apply list_elem_of_singleton in Hx'. by subst.
Qed.

(** What [normalizeAttachments] returns for a non-empty list. *)
Lemma normalizeAttachments_values a rest :
  normalizeAttachments (Some (a :: rest))
  = Some (reverse (remove_dups (reverse (map path_resolve (a :: rest))))).
Proof.
  unfold normalizeAttachments. cbn [noAttachments listOf].
  rewrite foldl_addResolved_first_occurrences; [done|constructor|constructor].
Qed.

Lemma first_occurrences_nonempty (x : string) l :
  reverse (remove_dups (reverse (x :: l))) <> [].
Proof.
  intros Hnil.
  assert (Hx : x ∈ reverse (remove_dups (reverse (x :: l)))).
  { apply elem_of_reverse, elem_of_remove_dups, elem_of_reverse. left. }
  rewrite Hnil in Hx. by apply elem_of_nil in Hx.
Qed.

(** X1: [normalizeAttachments] returns no list when there is no
    attachment; otherwise it returns a list that is not empty and has
    no path twice: the resolved paths of the attachments, each once,
    in the order of their first occurrence. *)
Theorem normalizeAttachments_first_occurrences attachments :
  match normalizeAttachments attachments with
  | None => listOf attachments = []
  | Some files =>
      files <> [] /\ NoDup files
      /\ (forall file, file ∈ files <-> file ∈ map path_resolve (listOf attachments))
      /\ files = firstOccurrences (map path_resolve (listOf attachments))
  end.
Proof.
  destruct attachments as [[|a rest]|]; [done| |done].
  rewrite normalizeAttachments_values. cbn [listOf].
  split_and!; [apply first_occurrences_nonempty|apply NoDup_first_occurrences| |done].
  intros file. by rewrite elem_of_reverse, elem_of_remove_dups, elem_of_reverse.
Qed.

(** What [normalizeAttachments] returns is resolved already. *)
Lemma normalizeAttachments_resolved attachments :
  (forall p, path_resolve (path_resolve p) = path_resolve p) ->
  map path_resolve (listOf (normalizeAttachments attachments))
  = listOf (normalizeAttachments attachments).
Proof.
  intros Hidem. destruct attachments as [[|a rest]|]; [done| |done].
  rewrite normalizeAttachments_values. cbn [listOf].
  set (files := reverse _). rewrite <- (map_id files) at 2. apply map_ext_in.
  intros f Hf. apply list_elem_of_In in Hf. subst files.
  rewrite elem_of_reverse, elem_of_remove_dups, elem_of_reverse, list_elem_of_fmap in Hf.
  destruct Hf as (q & -> & _). apply Hidem.
Qed.

(** X2: when [path.resolve] leaves a resolved path as it is,
    normalising an attachment list that is already normalised changes
    nothing.  (The batch dispatch of [vscode.ts] resolves the
    normalised lists of the requests once more when it merges them.) *)
Theorem normalizeAttachments_idempotent attachments :
  (forall p, path_resolve (path_resolve p) = path_resolve p) ->
  normalizeAttachments (normalizeAttachments attachments) = normalizeAttachments attachments.
Proof.
  intros Hidem. destruct attachments as [[|a rest]|]; [done| |done].
  rewrite normalizeAttachments_values.
  set (files := reverse (remove_dups (reverse (map path_resolve (a :: rest))))).
  pose proof (first_occurrences_nonempty (path_resolve a) (map path_resolve rest)) as Hne.
  change (path_resolve a :: map path_resolve rest) with (map path_resolve (a :: rest)) in Hne.
  fold files in Hne.
  assert (Hfix : map path_resolve files = files).
  { rewrite <- (map_id files) at 2. apply map_ext_in. intros f Hf.
    apply list_elem_of_In in Hf. subst files.
    rewrite elem_of_reverse, elem_of_remove_dups, elem_of_reverse, list_elem_of_fmap in Hf.
    destruct Hf as (q & -> & _). apply Hidem. }
  destruct files as [|f fs] eqn:Hfiles; [done|].
  rewrite normalizeAttachments_values, Hfix, <- Hfiles.
  f_equal. subst files.
  rewrite reverse_involutive, remove_dups_fixed by apply NoDup_remove_dups.
  done.
Qed.

(** The guideline list is the attachment list filtered. *)
Lemma foldl_addGuideline_filter patterns overrides attachments guidelines resolved :
  diagonal guidelines -> diagonal resolved ->
  values guidelines
  = filter (fun file => classifiedGuideline patterns overrides file = true) (values resolved) ->
  values (foldl (addGuideline patterns overrides) guidelines attachments)
  = filter (fun file => classifiedGuideline patterns overrides file = true)
           (values (foldl addResolved resolved attachments)).
Proof.
  revert guidelines resolved.
  induction attachments as [|a rest IH]; intros guidelines resolved Hg Hr Heq; cbn [foldl]; [done|].
  destruct (addGuideline_values patterns overrides guidelines a Hg) as [Hg' Hgv].
  destruct (addResolved_values resolved a Hr) as [Hr' Hrv].
  apply IH; [done|done|].
  rewrite Hgv, Hrv, Heq.
  destruct (classifiedGuideline patterns overrides (path_resolve a)) eqn:Hc; cbn [andb].
  - case_bool_decide as Hin.
    + rewrite bool_decide_true; [done|]. by apply list_elem_of_filter.
    + rewrite bool_decide_false; cbn [negb].
      * rewrite filter_app, filter_cons_True by done. done.
      * intros Hf. by apply list_elem_of_filter in Hf as [_ Hf].
  - case_bool_decide as Hin; [done|].
    rewrite filter_app, filter_cons_False, filter_nil, app_nil_r; [done|].
    by rewrite Hc.
Qed.

Lemma collectGuidelineFiles_filter attachments patterns overrides :
  collectGuidelineFiles attachments patterns overrides
  = filter (fun file => classifiedGuideline patterns overrides file = true)
           (collectAttachmentFiles attachments).
Proof.
  unfold collectGuidelineFiles, collectAttachmentFiles.
  destruct (noAttachments attachments); [done|].
  apply foldl_addGuideline_filter; done || constructor.
Qed.

(** X3: the two lists of the preread block are the attachment files
    split by one test, each in the order of the attachment files: a
    file is listed as a guideline file exactly when it is in the
    override set or its forward-slash form matches the patterns, and
    as a plain attachment otherwise. *)
Theorem preread_lists_partition request attachments options :
  let files := collectAttachmentFiles attachments in
  let guideline :=
    classifiedGuideline (effectivePatterns request options) (effectiveOverrides options) in
  fst (prereadLists request attachments options)
    = filter (fun file => guideline file = true) files
  /\ snd (prereadLists request attachments options)
    = filter (fun file => guideline file = false) files.
Proof.
  cbn zeta. unfold prereadLists. cbn [fst snd].
  split; [apply collectGuidelineFiles_filter|].
  apply filter_agree. intros file Hfile.
  rewrite elem_of_collectGuidelineFiles.
  apply elem_of_collectAttachmentFiles in Hfile.
  destruct (classifiedGuideline _ _ file); intuition congruence.
Qed.
End PrereadMore.

(** ** The layout of the prompt document *)

Section PromptLayout.
Context `{PathModule} `{YamlParser}.
Import JsString TrimFacts.






Lemma occurs_append c a b : occurs c (a +:+ b) = occurs c a || occurs c b.
Proof.
  induction a as [|x a IH]; [done|].
  change (Ascii.eqb x c || occurs c (a +:+ b) = Ascii.eqb x c || occurs c a || occurs c b).
  by rewrite IH, orb_assoc.
Qed.

Lemma occurs_backslashesToSlashes s : occurs "\" (backslashesToSlashes s) = false.
Proof.
  induction s as [|c s IH]; [done|]. cbn [backslashesToSlashes occurs]. rewrite IH.
  destruct (Ascii.eqb c "\") eqn:Hc; [done|]. by rewrite Hc.
Qed.

(** X5: whatever the path, the file URI of the preread block starts
    with the [file://] scheme and contains no backslash. *)
Theorem pathToFileUri_no_backslash filePath :
  String.prefix "file://" (pathToFileUri filePath) = true
  /\ occurs "\" (pathToFileUri filePath) = false.
Proof.
  unfold pathToFileUri.
  destruct (startsWithDrive _); split;
    try (by rewrite occurs_append, occurs_backslashesToSlashes); [reflexivity|].
  by destruct (backslashesToSlashes _).
Qed.

End PromptLayout.

(** ** Error details and the executable *)

Section Details.
Import JsString TrimFacts.



End Details.

Section Locate.
Context `{PathModule} `{YamlParser} `{JsonModule} `{OsModule}.
Import JsString TrimFacts.


End Locate.

(** ** What mirroring copies *)

Section MirrorCopyFacts.
Context `{PathModule}.
Variable filesRoot : string.
Variable guidelineOriginals : gset string.

Lemma mirrorLoop_copies todo done state w state' w' :
  mirrorInvariant filesRoot guidelineOriginals done state ->
  let dests :=
    imap (fun k a => mirrorDestination filesRoot (done ++ todo) (length done + k) a) todo in
  NoDup dests ->
  (forall a, a ∈ todo -> path_resolve a ∉ dests) ->
  mirrorLoop filesRoot guidelineOriginals todo state w = (Ok state', w') ->
  (forall k a, todo !! k = Some a ->
     files w' !! mirrorDestination filesRoot (done ++ todo) (length done + k) a
     = files w !! path_resolve a)
  /\ (forall p, p ∉ dests -> files w' !! p = files w !! p)
  /\ env w' = env w /\ exec w' = exec w /\ readLog w' = readLog w
  /\ tempCount w' = tempCount w.
Proof.
  revert done state w. induction todo as [|a rest IH]; intros done state w Hinv dests Hnd Hsrc.
  - cbn. intros [= <- <-]. by split_and!.
  - cbn [mirrorLoop]. unfold IO_bind at 1. rewrite mirrorOne_step.
    destruct (files w !! path_resolve a) as [content|] eqn:Hcontent; [|done].
    set (d0 := path_join filesRoot _).
    assert (Hd0 : d0 = mirrorDestination filesRoot (done ++ a :: rest) (length done + 0) a).
    { unfold d0, mirrorDestination, earlierSameName.
      destruct state as [[mirrored gm] counts]. destruct Hinv as (_ & _ & Hcount & _).
      cbn [snd]. rewrite Hcount, Nat.add_0_r, take_app_le, take_ge by lia. done. }
    set (w1 := withFiles _ w). intros Hrun.
    assert (Hall : (done ++ [a]) ++ rest = done ++ a :: rest) by by rewrite <- app_assoc.
    assert (Hdests : dests = d0 :: imap (fun k x =>
              mirrorDestination filesRoot ((done ++ [a]) ++ rest) (length (done ++ [a]) + k) x) rest).
    { unfold dests. rewrite imap_cons, Hd0, Hall. f_equal. apply imap_ext.
      intros k x _. cbn. rewrite length_app. cbn. f_equal. lia. }
    rewrite Hdests in Hnd, Hsrc. apply NoDup_cons in Hnd as [Hfresh Hnd'].
    destruct (IH (done ++ [a]) _ w1 (mirrorInvariant_step _ _ _ _ _ Hinv) Hnd') as
      (Hcopy & Hframe & Henv & Hexec & Hlog & Htemp); [|exact Hrun|].
    { intros x Hx Hin. apply (Hsrc x); [by right|by right]. }
    split_and!; try done.
    + intros k x Hk. destruct k as [|k].
      * cbn in Hk. injection Hk as <-. rewrite <- Hd0, Hframe by done.
        unfold w1. cbn. by rewrite lookup_insert_eq.
      * cbn in Hk. specialize (Hcopy k x Hk).
        rewrite Hall, length_app in Hcopy. cbn [length] in Hcopy.
        replace (length done + S k) with (length done + 1 + k) by lia.
        rewrite Hcopy. unfold w1. cbn. rewrite lookup_insert_ne; [done|].
        intros Heq. apply (Hsrc x); [right; by eapply list_elem_of_lookup_2|].
        rewrite <- Heq. left.
    + intros p Hp. rewrite Hdests in Hp. apply not_elem_of_cons in Hp as [Hp0 Hp'].
      rewrite Hframe by done. unfold w1. cbn. by rewrite lookup_insert_ne.
Qed.

End MirrorCopyFacts.

Section MirrorCopyTheorem.
Context `{PathModule}.

(** X8: when the attachments exist, their destinations in the
    workspace are pairwise different and none of them is an
    attachment itself, [mirrorAttachments] succeeds, every destination
    holds the content of its attachment, every other file is as
    before, and nothing else of the world changes. *)
Theorem mirrorAttachments_copies attachments workspaceRoot guidelineOriginals w :
  let filesRoot := path_join workspaceRoot FILES_DIR in
  attachments <> [] ->
  sourcesExist attachments w ->
  NoDup (mirrorDestinations filesRoot attachments) ->
  (forall a, a ∈ attachments -> path_resolve a ∉ mirrorDestinations filesRoot attachments) ->
  exists result w',
    mirrorAttachments (Some attachments) workspaceRoot guidelineOriginals w = (Ok result, w')
    /\ (forall i a, attachments !! i = Some a ->
          files w' !! mirrorDestination filesRoot attachments i a
          = files w !! path_resolve a)
    /\ (forall p, p ∉ mirrorDestinations filesRoot attachments ->
          files w' !! p = files w !! p)
    /\ env w' = env w /\ exec w' = exec w /\ readLog w' = readLog w
    /\ tempCount w' = tempCount w.
Proof.
  intros filesRoot Hne Hex Hnd Hsrc.
  destruct (mirrorLoop_ok filesRoot guidelineOriginals attachments ([], ∅, ∅) w Hex)
    as (w' & Hloop & _).
  exists (Some (fst (fst (foldl (mirrorStep filesRoot guidelineOriginals) ([], ∅, ∅) attachments))),
          snd (fst (foldl (mirrorStep filesRoot guidelineOriginals) ([], ∅, ∅) attachments))), w'.
  split.
  - unfold mirrorAttachments.
    destruct attachments as [|a0 rest]; [done|]. cbn [noAttachments listOf].
    unfold IO_bind at 1. cbn [Fs.mkdir IO_ret]. unfold IO_bind at 1.
    fold filesRoot. by rewrite Hloop.
  - apply (mirrorLoop_copies filesRoot guidelineOriginals attachments [] _ w _ w'
             (mirrorInvariant_initial _ _) Hnd Hsrc Hloop).
Qed.
End MirrorCopyTheorem.

(** ** The workspace of an [invoke] *)

Section WorkspaceFacts.
Context `{PathModule} `{YamlParser} `{JsonModule} `{OsModule}.

Lemma ensureEnvironmentReady_runner this w :
  runCodex (snd (ensureEnvironmentReady this w)) = runCodex this.
Proof.
  unfold ensureEnvironmentReady. destruct (environmentCheck this); [done|].
  unfold validateEnvironment.
  destruct (negb _ && negb _); [done|].
  destruct (fst (ensureFileExists _ _ w)); [|done].
  by destruct (fst (locateExecutable _ w)).
Qed.

(** An [invoke] that gets past the two checks runs in a new workspace
    and removes it. *)
Lemma invoke_in_workspace this request w :
  signalAborted request = false ->
  fst (ensureEnvironmentReady this w) = Ok tt ->
  exists body,
    body = invokeInWorkspace (snd (ensureEnvironmentReady this w)) request
             (normalizeAttachments (attachments request))
             (originalGuidelinesOf (normalizeAttachments (attachments request))
                                   (guideline_patterns request))
             (workspaceOf w)
             {| files := files w; env := env w; exec := exec w;
                readLog := readLog w; tempCount := S (tempCount w) |}
    /\ invoke this request w
       = (fst body, snd (ensureEnvironmentReady this w),
          cleanupWorkspace (workspaceOf w) (snd body)).
Proof.
  intros Hlive Hready. eexists. split; [reflexivity|].
  unfold invoke. rewrite Hlive.
  destruct (ensureEnvironmentReady this w) as [[[]|e] this']; cbn in Hready; [|done].
  cbn [snd]. unfold IO_bind at 1, createWorkspace, Fs.mkdtemp, IO_finally, workspaceOf.
  by destruct (invokeInWorkspace _ _ _ _ _ _).
Qed.




Variable root : string.



End WorkspaceFacts.

Section NoTrace.
Context `{PathModule} `{YamlParser} `{JsonModule} `{OsModule}.

End NoTrace.

(** ** The outcome of an [invoke] *)

Section InvokeOutcome.
Context `{PathModule} `{YamlParser} `{JsonModule} `{OsModule}.

Lemma ensureEnvironmentReady_config this w :
  config (snd (ensureEnvironmentReady this w)) = config this.
Proof.
  unfold ensureEnvironmentReady. destruct (environmentCheck this); [done|].
  unfold validateEnvironment.
  destruct (negb _ && negb _); [done|].
  destruct (fst (ensureFileExists _ _ w)); [|done].
  by destruct (fst (locateExecutable _ w)).
Qed.

Lemma mirrorAttachments_succeeds attachments workspaceRoot guidelineOriginals w :
  sourcesExist (listOf attachments) w ->
  exists mirror w', mirrorAttachments attachments workspaceRoot guidelineOriginals w
                    = (Ok mirror, w').
Proof.
  intros Hex. destruct attachments as [[|a rest]|]; [by eexists _, _..| |by eexists _, _].
  destruct (mirrorAttachments_runs (a :: rest) workspaceRoot guidelineOriginals w)
    as (m & g & w' & Hrun & _); [done|done|]. eauto.
Qed.

(** X11: how [invoke] turns the outcome of the runner into its own,
    for a request that is not aborted, a ready environment and
    attachments that exist.  The runner is called with the resolved
    executable, the arguments of [buildCodexArgs], the working
    directory of [resolveCwd], the configured timeout, the signal of
    the request and the prompt that was written to the prompt file.
    An error of the runner with code ENOENT becomes the
    executable-not-found error, any other error is passed on; a result
    that timed out gives the timeout error even with exit code 0; then
    a non-zero exit code gives the exit-code error; otherwise the
    answer is the text extracted from the parsed standard output, or
    the error of parsing or extraction. *)
Theorem invoke_outcome this request w :
  signalAborted request = false ->
  fst (ensureEnvironmentReady this w) = Ok tt ->
  sourcesExist (listOf (normalizeAttachments (attachments request))) w ->
  exists options w2,
    run_executable options = executableInUse (snd (ensureEnvironmentReady this w))
    /\ run_args options = buildCodexArgs this
    /\ run_cwd options = resolveCwd this (workspaceOf w)
    /\ run_timeoutMs options = timeoutMs (config this)
    /\ run_signal options = signal request
    /\ files w2 !! path_join (workspaceOf w) PROMPT_FILENAME = Some (run_prompt options)
    /\ match outcomeOf this request w with
       | Ok response => Ok (text response)
       | Throw e => Throw e
       end
       = match fst (runCodex this options w2) with
         | Throw e =>
             Throw (if bool_decide (code e = Some "ENOENT")
                    then executableNotFoundError this else e)
         | Ok result =>
             if default false (timedOut result) then Throw (timedOutError this)
             else if negb (exitCode result =? 0)%Z then Throw (nonZeroExitError result)
             else match parseCodexJson (stdout result) with
                  | Throw e => Throw e
                  | Ok parsed => extractAssistantText parsed
                  end
         end.
Proof.
  intros Hlive Hready Hex.
  destruct (invoke_in_workspace this request w Hlive Hready) as (body & Hbody & Hrun).
  unfold outcomeOf. rewrite Hrun. cbn [fst]. subst body.
  pose proof (ensureEnvironmentReady_config this w) as Hconfig.
  pose proof (ensureEnvironmentReady_runner this w) as Hrunner.
  set (this' := snd (ensureEnvironmentReady this w)) in *.
  set (w0 := {| files := files w; env := env w; exec := exec w;
                readLog := readLog w; tempCount := S (tempCount w) |}).
  destruct (mirrorAttachments_succeeds (normalizeAttachments (attachments request))
              (workspaceOf w)
              (originalGuidelinesOf (normalizeAttachments (attachments request))
                                    (guideline_patterns request)) w0 Hex)
    as (mirror & w1 & Hmirror).
  unfold invokeInWorkspace. unfold IO_bind at 1. rewrite Hmirror.
  unfold IO_bind at 1. cbn [Fs.writeFile].
  set (promptContent := buildPromptDocument _ _ _).
  set (w2 := withFiles _ w1).
  unfold IO_bind at 1, executeCodex, IO_catch.
  set (options := {| run_executable := _ |}).
  exists options, w2. split_and!.
  - done.
  - unfold options. cbn [run_args]. unfold buildCodexArgs. by rewrite Hconfig.
  - unfold options. cbn [run_cwd]. unfold resolveCwd. by rewrite Hconfig.
  - unfold options. cbn [run_timeoutMs]. by rewrite Hconfig.
  - done.
  - unfold w2. cbn. by rewrite lookup_insert_eq.
  - rewrite Hrunner.
    destruct (runCodex this options w2) as [[result|e] w3]; cbn [fst].
    + unfold timedOutError. rewrite Hconfig.
      destruct (default false (timedOut result)); [done|].
      destruct (negb _); [done|].
      unfold IO_bind, IO_lift, IO_throw, IO_ret.
      destruct (parseCodexJson _); [|done].
      by destruct (extractAssistantText _).
    + unfold executableNotFoundError. rewrite Hconfig. by case_bool_decide.
Qed.
End InvokeOutcome.

(** ** A missing attachment *)

Section MissingAttachment.
Context `{PathModule} `{YamlParser} `{JsonModule} `{OsModule}.


End MissingAttachment.

(** ** The answer of an [invoke] *)

Section AnswerText.
Context `{PathModule} `{YamlParser} `{JsonModule} `{OsModule}.

Lemma scanMessages_truthy messages n text :
  scanMessages messages n = Some text -> text <> "".
Proof.
  induction n as [|index IH]; cbn [scanMessages]; [done|].
  destruct (messages !! index) as [entry|]; [|exact IH].
  destruct (negb (Json.isObjectLike entry)); [exact IH|].
  destruct (negb (Json.isTheString "assistant" _)); [exact IH|].
  destruct (flattenContent _) as [[|c s]|]; cbn [truthy JsString.nonEmpty]; try exact IH.
  by intros [= <-].
Qed.

Lemma extractAssistantText_truthy parsed text :
  extractAssistantText parsed = Ok text -> text <> "".
Proof.
  unfold extractAssistantText.
  destruct (negb (Json.isObjectLike parsed)); [done|].
  set (fromMessages := match Json.prop "messages" parsed with
                       | Some (JArray messages) => scanMessages messages (length messages)
                       | _ => None end).
  destruct fromMessages as [found|] eqn:Hm.
  - intros [= <-]. subst fromMessages.
    destruct (Json.prop "messages" parsed) as [[| | | |messages|]|]; try done.
    by apply scanMessages_truthy in Hm.
  - set (fromResponse := match Json.prop "response" parsed with
                         | Some response => _ | None => None end).
    destruct fromResponse as [found|] eqn:Hr.
    + intros [= <-]. subst fromResponse.
      destruct (Json.prop "response" parsed) as [response|]; [|done].
      destruct (Json.isObjectLike response); [|done].
      destruct (flattenContent _) as [[|c s]|]; cbn [truthy JsString.nonEmpty] in Hr; try done.
      by injection Hr as <-.
    + destruct (flattenContent _) as [[|c s]|]; cbn [truthy JsString.nonEmpty]; try done.
      by intros [= <-].
Qed.

(** X21: an [invoke] that returns has an answer that is not empty:
    its text is what [extractAssistantText] gives on the document
    parsed from the standard output of a run that exited with code 0,
    and both are in the raw payload, with the workspace of this
    call. *)
Theorem invoke_answer_not_empty this request w response :
  outcomeOf this request w = Ok response ->
  text response <> ""
  /\ parseCodexJson (raw_stdout (raw response)) = Ok (raw_response (raw response))
  /\ extractAssistantText (raw_response (raw response)) = Ok (text response)
  /\ raw_exitCode (raw response) = 0%Z
  /\ raw_workspace (raw response) = workspaceOf w.
Proof.
  unfold outcomeOf, invoke.
  destruct (signalAborted request); [done|].
  destruct (ensureEnvironmentReady this w) as [[[]|e] this']; [|done].
  unfold IO_bind at 1, createWorkspace, Fs.mkdtemp, IO_finally.
  fold (workspaceOf w).
  set (w0 := {| files := files w |}).
  unfold invokeInWorkspace, IO_bind at 1.
  destruct (mirrorAttachments _ _ _ w0) as [[mirror|e] w1]; [|done].
  unfold IO_bind at 1. cbn [Fs.writeFile].
  set (w2 := withFiles _ w1).
  unfold IO_bind at 1.
  destruct (executeCodex _ _ _ _ _ w2) as [[result|e] w3]; [|done].
  destruct (default false (timedOut result)); [done|].
  destruct (exitCode result =? 0)%Z eqn:Hexit; cbn [negb]; [|done].
  unfold IO_bind, IO_lift, IO_ret.
  destruct (parseCodexJson (stdout result)) as [parsed|e] eqn:Hparse; [|done].
  destruct (extractAssistantText parsed) as [answer|e] eqn:Hanswer; [|done].
  cbn [fst]. intros [= <-]. cbn [text raw raw_stdout raw_response raw_exitCode raw_workspace].
  split_and!; [by eapply extractAssistantText_truthy|done|done|by apply Z.eqb_eq|done].
Qed.
End AnswerText.

(** ** The default runner, event by event *)

Module RunnerTraceFacts.
Import Runner RunnerTrace.

Lemma written_snoc toStdout events e :
  written toStdout (events ++ [e])
  = match e with
    | StdoutData chunk =>
        if toStdout then written toStdout events +:+ chunk else written toStdout events
    | StderrData chunk =>
        if toStdout then written toStdout events else written toStdout events +:+ chunk
    | _ => written toStdout events
    end.
Proof. unfold written. by rewrite foldl_app. Qed.

Lemma expires_snoc events e :
  expires (events ++ [e])
  = expires events || match e with TimerExpired => true | _ => false end.
Proof. unfold expires. rewrite existsb_app. cbn. by rewrite orb_false_r. Qed.

Lemma kill_keeps sig s :
  out (kill sig s) = out s /\ err (kill sig s) = err s
  /\ timedOutFlag (kill sig s) = timedOutFlag s
  /\ timerPending (kill sig s) = timerPending s
  /\ abortListener (kill sig s) = abortListener s
  /\ settled (kill sig s) = settled s.
Proof. unfold kill. by destruct (child s). Qed.

Lemma pendingInvariant_start options : pendingInvariant options [] (start options).
Proof.
  unfold pendingInvariant, start, timerFired.
  cbn [expires existsb].
  destruct (run_signal options) as [sig|]; [destruct (aborted sig)|];
    destruct (armsTimer options); cbn; split_and!; try done;
    unfold onAbort, kill; cbn; done.
Qed.

Lemma pendingInvariant_step options seen s e :
  settles e = false ->
  pendingInvariant options seen s -> pendingInvariant options (seen ++ [e]) (step s e).
Proof.
  intros Hquiet (Hs & Hout & Herr & Hflag & Htimer).
  unfold pendingInvariant, timerFired in *. rewrite !written_snoc, expires_snoc.
  destruct e; try done; cbn [step]; rewrite ?orb_false_r, ?orb_true_r.
  - (* abort *)
    destruct (abortListener s); [|done].
    unfold onAbort.
    destruct (kill_keeps "SIGTERM" (setAbortListener false s)) as (-> & -> & -> & -> & _ & ->).
    done.
  - (* timer *)
    destruct (timerPending s) eqn:Hp.
    + unfold onTimeout.
      destruct (kill_keeps "SIGTERM" (setTimedOut (setTimerPending false s)))
        as (-> & -> & -> & -> & _ & ->).
      cbn. split_and!; try done.
      * symmetry in Htimer. apply andb_true_iff in Htimer as [-> _]. done.
      * by rewrite andb_false_r.
    + split_and!; try done; [|by rewrite andb_false_r].
      rewrite Hflag. symmetry in Htimer. apply andb_false_iff in Htimer as [->|Hin]; [done|].
      apply negb_false_iff in Hin. by rewrite Hin.
  - cbn. by rewrite Hout.
  - cbn. by rewrite Herr.
  - cbn. done.
Qed.

Lemma pendingInvariant_foldl options events seen s :
  forallb (fun e => negb (settles e)) events = true ->
  pendingInvariant options seen s ->
  pendingInvariant options (seen ++ events) (foldl step s events).
Proof.
  revert seen s. induction events as [|e rest IH]; intros seen s Hquiet Hinv; cbn [foldl].
  - by rewrite app_nil_r.
  - cbn in Hquiet. apply andb_true_iff in Hquiet as [He Hrest].
    replace (seen ++ e :: rest) with ((seen ++ [e]) ++ rest) by (by rewrite <- app_assoc).
    apply IH; [done|]. apply pendingInvariant_step; [|done]. by apply negb_true_iff.
Qed.

Lemma settledInvariant_start options : settledInvariant (start options).
Proof.
  unfold settledInvariant, start.
  destruct (run_signal options) as [sig|]; [destruct (aborted sig)|];
    destruct (armsTimer options); cbn; try done; unfold onAbort, kill; cbn; done.
Qed.

(** Once the promise is settled no callback is registered, and no event
    changes the result or reaches the child. *)
Lemma settled_step s e :
  settledInvariant s -> isDefined (settled s) = true ->
  settledInvariant (step s e)
  /\ settled (step s e) = settled s
  /\ delivered (step s e) = delivered s.
Proof.
  intros Hinv Hs. destruct (Hinv Hs) as [Hl Ht].
  unfold settledInvariant.
  destruct e; cbn [step]; rewrite ?Hl, ?Ht; try (split_and!; done).
  - unfold settle, cleanup. cbn. destruct (settled s) eqn:Hset; [|done].
    cbn. rewrite ?Hset. by split_and!.
  - unfold settle, cleanup. cbn. destruct (settled s) eqn:Hset; [|done].
    cbn. rewrite ?Hset. by split_and!.
Qed.

Lemma settledInvariant_step s e : settledInvariant s -> settledInvariant (step s e).
Proof.
  intros Hinv. destruct (isDefined (settled s)) eqn:Hs.
  - by destruct (settled_step s e Hinv Hs).
  - assert (Hnone : settled s = None) by by destruct (settled s).
    unfold settledInvariant.
    destruct e; cbn [step].
    + destruct (abortListener s); [|by rewrite Hnone].
      unfold onAbort. destruct (kill_keeps "SIGTERM" (setAbortListener false s))
        as (_ & _ & _ & _ & _ & ->). cbn. by rewrite Hnone.
    + destruct (timerPending s); [|by rewrite Hnone].
      unfold onTimeout.
      destruct (kill_keeps "SIGTERM" (setTimedOut (setTimerPending false s)))
        as (_ & _ & _ & _ & _ & ->). cbn. by rewrite Hnone.
    + cbn. by rewrite Hnone.
    + cbn. by rewrite Hnone.
    + cbn. by rewrite Hnone.
    + unfold settle, cleanup. cbn. rewrite Hnone. done.
    + unfold settle, cleanup. cbn. rewrite Hnone. done.
Qed.

Lemma settledInvariant_foldl events s :
  settledInvariant s -> settledInvariant (foldl step s events).
Proof.
  revert s. induction events as [|e rest IH]; intros s Hinv; [done|].
  cbn [foldl]. by apply IH, settledInvariant_step.
Qed.

Lemma settled_foldl events s :
  settledInvariant s -> isDefined (settled s) = true ->
  settled (foldl step s events) = settled s
  /\ delivered (foldl step s events) = delivered s.
Proof.
  revert s. induction events as [|e rest IH]; intros s Hinv Hs; [done|].
  cbn [foldl]. destruct (settled_step s e Hinv Hs) as (Hinv' & Hset & Hdel).
  destruct (IH (step s e) Hinv') as [Hset' Hdel']; [by rewrite Hset|].
  by rewrite Hset', Hdel', Hset, Hdel.
Qed.

(** X12: what the promise of the default runner settles to, for
    every sequence of events.  As long as the child has emitted
    neither [close] nor [error] the promise is pending, also after an
    abort or a timeout.  If the first of the two is [close], the
    promise resolves with the chunks written to standard output and to
    standard error before it, each concatenated in order, the exit
    code of [close] (or -1 when it has none), and a timed-out flag
    that tells whether the armed timer expired before it.  If the
    first is [error], the promise rejects with that error.  Later
    events change nothing. *)
Theorem run_result_by_first_settling_event options before :
  forallb (fun e => negb (settles e)) before = true ->
  settled (run options before) = None
  /\ (forall code after,
        settled (run options (before ++ ChildClose code :: after))
        = Some (Ok {| stdout := written true before;
                      stderr := written false before;
                      exitCode := match code with Some n => n | None => (-1)%Z end;
                      timedOut := Some (timerFired options before) |}))
  /\ (forall error after,
        settled (run options (before ++ ChildError error :: after)) = Some (Throw error)).
Proof.
  intros Hquiet.
  pose proof (pendingInvariant_foldl options before [] (start options) Hquiet
                (pendingInvariant_start options)) as (Hs & Hout & Herr & Hflag & _).
  pose proof (settledInvariant_foldl before (start options) (settledInvariant_start options))
    as Hinv.
  rewrite app_nil_l in *. fold (run options before) in Hs, Hout, Herr, Hflag, Hinv.
  split; [done|]. split.
  - intros code after. unfold run. rewrite foldl_app. cbn [foldl].
    fold (run options before).
    apply (settledInvariant_step _ (ChildClose code)) in Hinv.
    destruct (settled_foldl after _ Hinv) as [-> _].
    + cbn [step]. unfold settle, cleanup. cbn. by rewrite Hs.
    + cbn [step]. unfold settle, cleanup. cbn. rewrite Hs. cbn.
      unfold result. cbn. by rewrite Hout, Herr, Hflag.
  - intros error after. unfold run. rewrite foldl_app. cbn [foldl].
    fold (run options before).
    apply (settledInvariant_step _ (ChildError error)) in Hinv.
    destruct (settled_foldl after _ Hinv) as [-> _].
    + cbn [step]. unfold settle, cleanup. cbn. by rewrite Hs.
    + cbn [step]. unfold settle, cleanup. cbn. by rewrite Hs.
Qed.

(** X13: once the promise of the default runner has settled, no
    later event changes what it settled to, and no later event makes
    the runner send a signal to the child: the timer is cleared and
    the abort listener removed. *)
Theorem settled_is_final options events r :
  settled (run options events) = Some r ->
  forall more,
    settled (run options (events ++ more)) = Some r
    /\ delivered (run options (events ++ more)) = delivered (run options events).
Proof.
  intros Hr more. unfold run in *. rewrite foldl_app.
  pose proof (settledInvariant_foldl events (start options) (settledInvariant_start options))
    as Hinv.
  destruct (settled_foldl more _ Hinv) as [Hset Hdel]; [by rewrite Hr|].
  by rewrite Hset, Hdel.
Qed.

End RunnerTraceFacts.

Module RunnerChildFacts.
Import Runner RunnerTrace.

Lemma childInvariant_start options : childInvariant options (start options).
Proof.
  unfold childInvariant, start.
  destruct (run_signal options) as [sig|]; [destruct (aborted sig)|];
    destruct (armsTimer options); cbn; split_and!; try done; try lia;
    by repeat constructor.
Qed.

Lemma kill_delivered sig s :
  stdinData (kill sig s) = stdinData s
  /\ abortListener (kill sig s) = abortListener s
  /\ timerPending (kill sig s) = timerPending s
  /\ (delivered (kill sig s) = delivered s \/ delivered (kill sig s) = delivered s ++ [sig]).
Proof. unfold kill. destruct (child s); cbn; split_and!; auto. Qed.

Lemma childInvariant_step options s e :
  childInvariant options s -> childInvariant options (step s e).
Proof.
  intros (Hstdin & Hsig & Hcount). unfold childInvariant.
  destruct e; cbn [step]; try (split_and!; done).
  - destruct (abortListener s) eqn:Hl; [|by rewrite Hl].
    unfold onAbort.
    destruct (kill_delivered "SIGTERM" (setAbortListener false s)) as (-> & -> & -> & [->| ->]);
      cbn; split_and!; try done; try lia.
    + apply Forall_app. split; [done|]. by repeat constructor.
    + rewrite length_app. cbn. lia.
  - destruct (timerPending s) eqn:Hl; [|by rewrite Hl].
    unfold onTimeout.
    destruct (kill_delivered "SIGTERM" (setTimedOut (setTimerPending false s)))
      as (-> & -> & -> & [->| ->]);
      cbn; split_and!; try done; try lia.
    + apply Forall_app. split; [done|]. by repeat constructor.
    + rewrite length_app. cbn. lia.
  - unfold settle, cleanup. cbn. destruct (settled s); cbn; split_and!; try done.
    all: destruct (abortListener s), (timerPending s); lia.
  - unfold settle, cleanup. cbn. destruct (settled s); cbn; split_and!; try done.
    all: destruct (abortListener s), (timerPending s); lia.
Qed.

(** X22: what the default runner does to the child, whatever events
    the runtime delivers: the standard input of the child is given the
    prompt; every signal the runner sends is SIGTERM; and it sends at
    most one for the abort signal, when the options have one, and one
    for the timeout, when it is armed. *)
Theorem child_gets_prompt_and_sigterm options events :
  stdinData (run options events) = Some (run_prompt options)
  /\ Forall (fun sig => sig = "SIGTERM") (delivered (run options events))
  /\ length (delivered (run options events))
     <= (if isDefined (run_signal options) then 1 else 0)
        + (if armsTimer options then 1 else 0).
Proof.
  assert (Hinv : childInvariant options (run options events)).
  { unfold run. generalize (childInvariant_start options).
    generalize (start options). induction events as [|e rest IH]; intros s Hs; [done|].
    cbn [foldl]. by apply IH, childInvariant_step. }
  destruct Hinv as (Hstdin & Hsig & Hcount). split_and!; [done|done|].
  destruct (abortListener _), (timerPending _); lia.
Qed.
End RunnerChildFacts.

(** ** The attachments of a batch *)

Section FirstOccurrences.
Context {A : Type} `{EqDecision A}.

Lemma elem_of_firstOccurrences (l : list A) x : x ∈ firstOccurrences l <-> x ∈ l.
Proof. unfold firstOccurrences. by rewrite elem_of_reverse, elem_of_remove_dups, elem_of_reverse. Qed.

Lemma firstOccurrences_snoc (l : list A) x :
  firstOccurrences (l ++ [x])
  = if bool_decide (x ∈ firstOccurrences l) then firstOccurrences l
    else firstOccurrences l ++ [x].
Proof.
  unfold firstOccurrences. rewrite reverse_snoc. cbn [remove_dups].
  destruct (decide_rel elem_of x (reverse l)) as [Hin|Hnin].
  - rewrite bool_decide_true; [done|].
    by rewrite elem_of_reverse, elem_of_remove_dups.
  - rewrite bool_decide_false, reverse_cons; [done|].
    by rewrite elem_of_reverse, elem_of_remove_dups.
Qed.

Lemma firstOccurrences_fixed (l : list A) : NoDup l -> firstOccurrences l = l.
Proof.
  intros Hn. unfold firstOccurrences.
  rewrite remove_dups_fixed, reverse_involutive; [done|].
  eapply NoDup_Permutation_proper; [apply reverse_Permutation|done].
Qed.

End FirstOccurrences.

Section MergeFacts.
Context `{PathModule} `{YamlParser} `{Subagent}.

Lemma foldl_addMerged seen attachments :
  foldl addMerged (firstOccurrences seen) attachments
  = firstOccurrences (seen ++ map path_resolve attachments).
Proof.
  revert seen. induction attachments as [|a rest IH]; intros seen; cbn [foldl map].
  - by rewrite app_nil_r.
  - replace (seen ++ path_resolve a :: map path_resolve rest)
      with ((seen ++ [path_resolve a]) ++ map path_resolve rest) by by rewrite <- app_assoc.
    rewrite <- IH. f_equal. unfold addMerged. by rewrite firstOccurrences_snoc.
Qed.

(** All the paths of the lists, resolved, in the order of the lists. *)
Lemma foldl_merge seen (all : list (option (list string))) :
  foldl (fun deduped list =>
           match list with
           | None => deduped
           | Some l => foldl addMerged deduped l
           end) (firstOccurrences seen) all
  = firstOccurrences (seen ++ concat (map (fun list => map path_resolve (listOf list)) all)).
Proof.
  revert seen. induction all as [|list rest IH]; intros seen; cbn [foldl map concat].
  - by rewrite app_nil_r.
  - destruct list as [l|]; cbn [listOf map].
    + rewrite foldl_addMerged, IH. by rewrite <- app_assoc.
    + by rewrite IH.
Qed.

Lemma mergeAttachments_values all :
  mergeAttachments all
  = match firstOccurrences (concat (map (fun list => map path_resolve (listOf list)) all)) with
    | [] => None
    | files => Some files
    end.
Proof.
  unfold mergeAttachments.
  change (@nil string) with (firstOccurrences (@nil string)).
  rewrite !foldl_merge, app_nil_l. by destruct (firstOccurrences _).
Qed.

(** X14: [mergeAttachments] returns the resolved paths of all the
    lists, each once, in the order of their first occurrence, and
    no list when there is no path at all. *)
Theorem mergeAttachments_union all :
  let resolved := concat (map (fun list => map path_resolve (listOf list)) all) in
  mergeAttachments all
  = match firstOccurrences resolved with
    | [] => None
    | files => Some files
    end
  /\ NoDup (listOf (mergeAttachments all))
  /\ (forall file, file ∈ listOf (mergeAttachments all) <-> file ∈ resolved).
Proof.
  cbn zeta. rewrite mergeAttachments_values.
  set (resolved := concat _).
  assert (Hlist : listOf (match firstOccurrences resolved with
                          | [] => None | files => Some files end)
                  = firstOccurrences resolved) by by destruct (firstOccurrences resolved).
  rewrite Hlist. split_and!; [done|apply NoDup_first_occurrences|].
  intros file. apply elem_of_firstOccurrences.
Qed.

Variable config : VSCodeResolvedConfig.

(** X15: the options of a batch dispatch, when [path.resolve]
    leaves a resolved path as it is: there is one query per request,
    in the order of the requests, each the prompt document of its
    request; and the attachments of the batch are exactly the
    normalised attachments of the requests taken together. *)
Theorem batchOptions_covers_requests requests :
  (forall p, path_resolve (path_resolve p) = path_resolve p) ->
  length (userQueries (batchOptions config requests)) = length requests
  /\ (forall i request,
        requests !! i = Some request ->
        userQueries (batchOptions config requests) !! i
        = Some (buildPromptDocument request (normalizeAttachments (attachments request)) None))
  /\ (forall file,
        file ∈ listOf (extraAttachments (batchOptions config requests))
        <-> exists request,
              request ∈ requests
              /\ file ∈ listOf (normalizeAttachments (attachments request))).
Proof.
  intros Hidem. unfold batchOptions. cbn [userQueries extraAttachments].
  split_and!.
  - by rewrite !length_map.
  - intros i request Hi. rewrite !list_lookup_fmap, Hi. done.
  - intros file.
    rewrite mergeAttachments_values.
    set (resolved := concat _).
    assert (Hlist : listOf (match firstOccurrences resolved with
                            | [] => None | files => Some files end)
                    = firstOccurrences resolved) by by destruct (firstOccurrences resolved).
    rewrite Hlist, elem_of_firstOccurrences. unfold resolved.
    rewrite list_elem_of_In, in_concat. split.
    + intros (l & Hl & Hfile). apply in_map_iff in Hl as (list & <- & Hlist').
      apply in_map_iff in Hlist' as (nr & <- & Hnr).
      apply in_map_iff in Hnr as (request & <- & Hreq).
      exists request. split; [by apply list_elem_of_In|].
      cbn [normalizeRequest snd] in Hfile.
      rewrite normalizeAttachments_resolved in Hfile by done. by apply list_elem_of_In.
    + intros (request & Hreq & Hfile).
      exists (listOf (normalizeAttachments (attachments request))). split.
      * apply in_map_iff. exists (normalizeAttachments (attachments request)).
        split; [by apply normalizeAttachments_resolved|].
        apply in_map_iff. exists (normalizeRequest request). split; [done|].
        apply in_map_iff. exists request. split; [done|]. by apply list_elem_of_In.
      * by apply list_elem_of_In.
Qed.
End MergeFacts.

(** ** file-utils.ts *)

Module PosixDirsFacts.
Import PosixDirs.

Lemma dropWhile_length f l : length (dropWhile f l) <= length l.
Proof. induction l as [|c l IH]; cbn; [lia|]. destruct (f c); cbn; lia. Qed.

Lemma dropWhile_head f l c rest : dropWhile f l = c :: rest -> f c = false.
Proof.
  induction l as [|x l IH]; cbn; [done|].
  destruct (f x) eqn:Hx; [done|]. by intros [= <- <-].
Qed.

Lemma length_string_of_list l : String.length (string_of_list_ascii l) = length l.
Proof. induction l as [|c l IH]; cbn; [done|]. by rewrite IH. Qed.

Lemma length_list_of_string s : length (list_ascii_of_string s) = String.length s.
Proof. induction s as [|c s IH]; cbn; [done|]. by rewrite IH. Qed.

Lemma depth_bound p : depth p <= S (String.length p).
Proof. unfold depth. destruct (String.eqb p "."); lia. Qed.

Lemma depth_long p : 2 <= String.length p -> depth p = S (String.length p).
Proof.
  intros Hlen. unfold depth. destruct (String.eqb p ".") eqn:Hdot; [|done].
  apply String.eqb_eq in Hdot. subst. cbn in Hlen. lia.
Qed.

(** [dirname] returns its argument or a path of smaller depth. *)
Lemma dirname_depth p : dirname p <> p -> depth (dirname p) < depth p.
Proof.
  destruct p as [|first rest]; [cbn; lia|].
  unfold dirname.
  set (trimmed := dropWhile isSlash (rev (list_ascii_of_string rest))).
  pose proof (dropWhile_length isSlash (rev (list_ascii_of_string rest))) as Htrim.
  fold trimmed in Htrim. rewrite length_rev, length_list_of_string in Htrim.
  pose proof (dropWhile_length (fun c => negb (isSlash c)) trimmed) as Hscan.
  destruct (dropWhile (fun c => negb (isSlash c)) trimmed) as [|slash before] eqn:Hscanned.
  - destruct (isSlash first) eqn:Hroot.
    + intros Hne. destruct rest as [|c rest'].
      * exfalso. apply Hne. unfold isSlash in Hroot. apply Ascii.eqb_eq in Hroot. by subst.
      * rewrite (depth_long (String first (String c rest'))) by (cbn; lia). cbn. lia.
    + intros Hne. unfold depth at 2.
      destruct (String.eqb (String first rest) ".") eqn:Hdot.
      * apply String.eqb_eq in Hdot. by rewrite Hdot in Hne.
      * cbn. lia.
  - intros _. cbn [length] in Hscan.
    assert (Hdepth : depth (String first rest) = S (S (String.length rest))).
    { apply depth_long. cbn. lia. }
    rewrite Hdepth.
    destruct (isSlash first && (length before =? 0)%nat) eqn:Hslashes.
    + apply andb_true_iff in Hslashes as [_ Hlen]. apply Nat.eqb_eq in Hlen.
      destruct before; [|done].
      assert (Hlong : 2 <= length trimmed).
      { destruct trimmed as [|c t] eqn:Htrimmed; [done|].
        apply dropWhile_head in Htrimmed as Hc.
        cbn in Hscanned. rewrite Hc in Hscanned. cbn in Hscanned.
        pose proof (dropWhile_length (fun c => negb (isSlash c)) t) as Ht.
        rewrite Hscanned in Ht. cbn in *. lia. }
      cbn. lia.
    + pose proof (depth_bound (String first (string_of_list_ascii (rev before)))) as Hb.
      cbn [String.length] in Hb. rewrite length_string_of_list, length_rev in Hb. lia.
Qed.

End PosixDirsFacts.

Section FileUtilsFacts.
Context `{PathModule} `{PathDirs}.





End FileUtilsFacts.

Section WalkFacts.
Context `{PathModule} `{PathDirs}.
Variable depthOf : string -> nat.
Hypothesis dirname_shrinks :
  forall p, path_dirname p <> p -> depthOf (path_dirname p) < depthOf p.



Lemma addRoot_firstOccurrences processed root :
  addRoot (firstOccurrences processed) root
  = firstOccurrences (processed ++ [path_resolve root]).
Proof.
  unfold addRoot. rewrite firstOccurrences_snoc. by case_bool_decide.
Qed.

Lemma searchRootsLoop_walk repoRoot bound :
  forall currentDir processed, depthOf currentDir <= bound ->
  exists n,
    (forall fuel, bound < fuel ->
       searchRootsLoop fuel repoRoot currentDir (firstOccurrences processed)
       = Some (firstOccurrences
                 (processed ++ map path_resolve (ancestors (S n) currentDir))))
    /\ Forall (fun dir => dir <> repoRoot /\ path_dirname dir <> dir) (ancestors n currentDir)
    /\ (Nat.iter n path_dirname currentDir = repoRoot
        \/ path_dirname (Nat.iter n path_dirname currentDir)
           = Nat.iter n path_dirname currentDir).
Proof using Type*.
  induction bound as [|bound IH]; intros currentDir processed Hdepth.
  all: destruct (String.eqb currentDir repoRoot || String.eqb (path_dirname currentDir) currentDir)
         eqn:Hboundary.
  all: try (exists 0; split_and!;
            [intros [|fuel] Hfuel; [lia|]; cbn [searchRootsLoop ancestors map];
             by rewrite Hboundary, addRoot_firstOccurrences
            |by constructor
            |apply orb_true_iff in Hboundary as [Hb|Hb]; apply String.eqb_eq in Hb;
             [by left|by right]]).
  all: apply orb_false_iff in Hboundary as Hboth; destruct Hboth as [Hrepo Hparent].
  all: apply String.eqb_neq in Hrepo, Hparent.
  all: pose proof (dirname_shrinks currentDir Hparent) as Hless.
  - lia.
  - destruct (IH (path_dirname currentDir) (processed ++ [path_resolve currentDir]))
      as (n & Hrun & Hwalk & Hend); [lia|].
    exists (S n). split_and!.
    + intros [|fuel] Hfuel; [lia|]. cbn [searchRootsLoop].
      rewrite Hboundary, addRoot_firstOccurrences, Hrun by lia.
      cbn [ancestors map]. by rewrite <- app_assoc.
    + cbn [ancestors]. by constructor.
    + by rewrite Nat.iter_succ_r.
Qed.

(** X18: [buildSearchRoots] ends under the same condition.  The
    roots are the directory of the eval file and the directories above
    it up to the repository root (or up to a directory that is its own
    parent), then the repository root and the working directory, all
    resolved, each once, in this order. *)
Theorem buildSearchRoots_walk evalPath repoRoot :
  let start := path_dirname evalPath in
  exists n,
    (forall fuel, depthOf start < fuel ->
       buildSearchRoots fuel evalPath repoRoot
       = Some (firstOccurrences
                 (map path_resolve (ancestors (S n) start ++ [repoRoot; process_cwd]))))
    /\ Forall (fun dir => dir <> repoRoot /\ path_dirname dir <> dir) (ancestors n start)
    /\ (Nat.iter n path_dirname start = repoRoot
        \/ path_dirname (Nat.iter n path_dirname start) = Nat.iter n path_dirname start).
Proof using Type*.
  intros start.
  destruct (searchRootsLoop_walk repoRoot (depthOf start) start [] (le_n _))
    as (n & Hrun & Hwalk & Hend).
  exists n. split_and!; [|done|done].
  intros fuel Hfuel. unfold buildSearchRoots. fold start.
  change (@nil string) with (firstOccurrences (@nil string)).
  rewrite Hrun by done. rewrite !addRoot_firstOccurrences.
  rewrite app_nil_l, map_app, <- !app_assoc. done.
Qed.

End WalkFacts.

(** ** The file-reference validator *)

Section ValidatorFacts.
Context `{PathModule} `{PathDirs} `{YamlModule}.




Variables evalDir filePath : string.









End ValidatorFacts.

Section ValidatorTheorem.
Context `{PathModule} `{PathDirs} `{YamlModule}.

End ValidatorTheorem.

(** ** Further worked examples *)

Section FurtherExamples.
Import Fixtures Samples.
#[local] Existing Instance workPath.
#[local] Existing Instance suffixMatcher.
#[local] Existing Instance linux.
#[local] Existing Instance knownDocuments.
#[local] Existing Instance workDirs.
#[local] Existing Instance suiteParser.

(** X2 at three attachments that name two files. *)
Lemma normalizeAttachments_idempotent_witness :
  (forall p, path_resolve (path_resolve p) = path_resolve p)
  /\ normalizeAttachments (normalizeAttachments (Some repeatedNotes))
     = normalizeAttachments (Some repeatedNotes).
Proof.
  split; [apply PosixFacts.resolve_idempotent|].
  apply (normalizeAttachments_idempotent (Some repeatedNotes)), PosixFacts.resolve_idempotent.
Defined.

Example normalizeAttachments_repeated :
  normalizeAttachments (Some repeatedNotes) = Some ["/work/docs/notes.md"; "/a/notes.md"].
Proof. by vm_compute. Qed.


(** X8 at three attachments that share the base name [notes.md]. *)
Lemma mirrorAttachments_copies_witness :
  threeNotes <> []
  /\ sourcesExist threeNotes notesWorld
  /\ NoDup (mirrorDestinations (path_join "/tmp/agentv-codex-0" FILES_DIR) threeNotes)
  /\ (forall a, a ∈ threeNotes ->
        path_resolve a ∉ mirrorDestinations (path_join "/tmp/agentv-codex-0" FILES_DIR)
                                            threeNotes)
  /\ exists result w',
       mirrorAttachments (Some threeNotes) "/tmp/agentv-codex-0" ∅ notesWorld = (Ok result, w')
       /\ files w' !! mirrorDestination (path_join "/tmp/agentv-codex-0" FILES_DIR)
                                        threeNotes 1 "docs/notes.md"
          = files notesWorld !! path_resolve "docs/notes.md".
Proof.
  assert (Hne : threeNotes <> []) by discriminate.
  assert (Hex : sourcesExist threeNotes notesWorld).
  { intros a Ha. repeat (apply elem_of_cons in Ha as [->|Ha]);
      [vm_compute; eauto ..|by apply elem_of_nil in Ha]. }
  assert (Hnd : NoDup (mirrorDestinations (path_join "/tmp/agentv-codex-0" FILES_DIR)
                                          threeNotes)).
  { apply (bool_decide_unpack _). by vm_compute. }
  assert (Hsrc : forall a, a ∈ threeNotes ->
            path_resolve a ∉ mirrorDestinations (path_join "/tmp/agentv-codex-0" FILES_DIR)
                                                threeNotes).
  { intros a Ha. repeat (apply elem_of_cons in Ha as [->|Ha]);
      [apply (bool_decide_unpack _); by vm_compute ..|by apply elem_of_nil in Ha]. }
  split; [exact Hne|]. split; [exact Hex|]. split; [exact Hnd|]. split; [exact Hsrc|].
  destruct (mirrorAttachments_copies threeNotes "/tmp/agentv-codex-0" ∅ notesWorld
              Hne Hex Hnd Hsrc) as (result & w' & Hrun & Hcopy & _).
  exists result, w'. split; [exact Hrun|]. exact (Hcopy 1 "docs/notes.md" eq_refl).
Defined.

Example mirrorAttachments_second_copy :
  mirrorDestination (path_join "/tmp/agentv-codex-0" FILES_DIR) threeNotes 1 "docs/notes.md"
    = "/tmp/agentv-codex-0/files/notes.md.1"
  /\ files notesWorld !! path_resolve "docs/notes.md" = Some "second".
Proof. by vm_compute. Qed.



Example invoke_restores_files :
  map_to_list (files (worldAfter codexTarget guidelineRequest readySourceWorld))
  = map_to_list (files readySourceWorld).
Proof. by vm_compute. Qed.

(** X11 at the request of the provider test: the runner prints a
    document whose [output] is the answer. *)
Lemma invoke_outcome_witness :
  signalAborted guidelineRequest = false
  /\ fst (ensureEnvironmentReady codexTarget readySourceWorld) = Ok tt
  /\ sourcesExist (listOf (normalizeAttachments (attachments guidelineRequest)))
                  readySourceWorld
  /\ match outcomeOf codexTarget guidelineRequest readySourceWorld with
     | Ok response => Ok (text response)
     | Throw e => Throw e
     end = Ok "done".
Proof.
  assert (Hready : fst (ensureEnvironmentReady codexTarget readySourceWorld) = Ok tt)
    by by vm_compute.
  assert (Hex : sourcesExist (listOf (normalizeAttachments (attachments guidelineRequest)))
                             readySourceWorld).
  { intros a Ha. vm_compute in Ha. repeat (apply elem_of_cons in Ha as [->|Ha]);
      [vm_compute; eauto ..|by apply elem_of_nil in Ha]. }
  split; [reflexivity|]. split; [exact Hready|]. split; [exact Hex|].
  destruct (invoke_outcome codexTarget guidelineRequest readySourceWorld eq_refl Hready Hex)
    as (options & w2 & _ & _ & _ & _ & _ & _ & Houtcome).
  rewrite Houtcome. reflexivity.
Defined.


Example invoke_missing_attachment_error :
  (match outcomeOf codexTarget missingRequest readySourceWorld with
   | Ok _ => None
   | Throw e => Some (code e)
   end) = Some (Some "ENOENT")
  /\ map_to_list (files (worldAfter codexTarget missingRequest readySourceWorld))
     = map_to_list (files readySourceWorld).
Proof. by vm_compute. Qed.

(** X21 at the request of the provider test. *)
Lemma invoke_answer_not_empty_witness :
  exists response,
    outcomeOf codexTarget guidelineRequest readySourceWorld = Ok response
    /\ text response <> ""
    /\ raw_exitCode (raw response) = 0%Z.
Proof.
  destruct (outcomeOf codexTarget guidelineRequest readySourceWorld) as [response|e] eqn:Hrun.
  - exists response. split; [reflexivity|].
    destruct (invoke_answer_not_empty codexTarget guidelineRequest readySourceWorld
                response Hrun) as (Hne & _ & _ & Hexit & _).
    split; [exact Hne|exact Hexit].
  - exfalso. vm_compute in Hrun. discriminate.
Defined.

(** X12 at a run that times out after some output. *)
Lemma run_result_by_first_settling_event_witness :
  forallb (fun e => negb (RunnerTrace.settles e)) timedOutRun = true
  /\ Runner.settled (Runner.run (runOptions (Some 1000%Z) None)
                       (timedOutRun ++ Runner.ChildClose None :: [Runner.StdoutData "late"]))
     = Some (Ok {| stdout := "partial"; stderr := "slow"; exitCode := (-1)%Z;
                   timedOut := Some true |}).
Proof.
  split; [reflexivity|].
  destruct (RunnerTraceFacts.run_result_by_first_settling_event
              (runOptions (Some 1000%Z) None) timedOutRun eq_refl) as (_ & Hclose & _).
  exact (Hclose None [Runner.StdoutData "late"]).
Defined.

(** X13 at a run that has closed: a late timer, a late abort and a
    late error change nothing. *)
Lemma settled_is_final_witness :
  Runner.settled (Runner.run (runOptions (Some 1000%Z) (Some {| aborted := false |}))
                    [Runner.ChildExited; Runner.ChildClose (Some 0%Z)])
  = Some (Ok {| stdout := ""; stderr := ""; exitCode := 0%Z; timedOut := Some false |})
  /\ Runner.settled (Runner.run (runOptions (Some 1000%Z) (Some {| aborted := false |}))
                       ([Runner.ChildExited; Runner.ChildClose (Some 0%Z)]
                        ++ [Runner.TimerExpired; Runner.AbortFired;
                            Runner.ChildError (newError "late")]))
     = Some (Ok {| stdout := ""; stderr := ""; exitCode := 0%Z; timedOut := Some false |})
  /\ Runner.delivered (Runner.run (runOptions (Some 1000%Z) (Some {| aborted := false |}))
                         ([Runner.ChildExited; Runner.ChildClose (Some 0%Z)]
                          ++ [Runner.TimerExpired; Runner.AbortFired;
                              Runner.ChildError (newError "late")]))
     = Runner.delivered (Runner.run (runOptions (Some 1000%Z) (Some {| aborted := false |}))
                           [Runner.ChildExited; Runner.ChildClose (Some 0%Z)]).
Proof.
  split; [reflexivity|].
  exact (RunnerTraceFacts.settled_is_final
           (runOptions (Some 1000%Z) (Some {| aborted := false |}))
           [Runner.ChildExited; Runner.ChildClose (Some 0%Z)] _ eq_refl
           [Runner.TimerExpired; Runner.AbortFired; Runner.ChildError (newError "late")]).
Defined.

(** X15 at the batch of the provider test. *)
Lemma batchOptions_covers_requests_witness :
  (forall p, path_resolve (path_resolve p) = path_resolve p)
  /\ length (userQueries (batchOptions (codeCommand false) twoRequests)) = length twoRequests
  /\ "/work/b.txt" ∈ listOf (extraAttachments (batchOptions (codeCommand false) twoRequests)).
Proof.
  split; [apply PosixFacts.resolve_idempotent|].
  destruct (batchOptions_covers_requests (H := workPath) (codeCommand false) twoRequests
              (PosixFacts.resolve_idempotent "/work")) as (Hlen & _ & Hin).
  split; [exact Hlen|]. apply Hin.
  exists (request "second" ["b.txt"] None). split; [right; left|left].
Defined.


(** X18 at the same eval file. *)
Lemma buildSearchRoots_walk_witness :
  (forall p, path_dirname p <> p -> PosixDirs.depth (path_dirname p) < PosixDirs.depth p)
  /\ exists n,
       (forall fuel, PosixDirs.depth (path_dirname "/repo/evals/cases/suite.yaml") < fuel ->
          buildSearchRoots fuel "/repo/evals/cases/suite.yaml" "/repo"
          = Some (firstOccurrences
                    (map path_resolve
                       (ancestors (S n) (path_dirname "/repo/evals/cases/suite.yaml")
                        ++ ["/repo"; process_cwd]))))
       /\ (Nat.iter n path_dirname (path_dirname "/repo/evals/cases/suite.yaml") = "/repo"
           \/ path_dirname (Nat.iter n path_dirname
                              (path_dirname "/repo/evals/cases/suite.yaml"))
              = Nat.iter n path_dirname (path_dirname "/repo/evals/cases/suite.yaml")).
Proof.
  split; [exact PosixDirsFacts.dirname_depth|].
  destruct (buildSearchRoots_walk (H := workPath) (H0 := workDirs)
              PosixDirs.depth PosixDirsFacts.dirname_depth
              "/repo/evals/cases/suite.yaml" "/repo") as (n & Hrun & _ & Hend).
  exists n. split; [exact Hrun|exact Hend].
Defined.

Example buildSearchRoots_suite :
  buildSearchRoots 30 "/repo/evals/cases/suite.yaml" "/repo"
  = Some ["/repo/evals/cases"; "/repo/evals"; "/repo"; "/work"].
Proof. by vm_compute. Qed.

Example resolveFileReference_suite :
  fst (resolveFileReference "/prompt.md" ["/repo/evals/cases"; "/repo/evals"; "/repo"] repoWorld)
  = Ok {| displayPath := "prompt.md";
          resolvedPath := Some "/repo/evals/prompt.md";
          attempted := ["/prompt.md"; "/repo/evals/cases/prompt.md"; "/repo/evals/prompt.md"] |}.
Proof. by vm_compute. Qed.

Example validateFileReferences_suite :
  match fst (validateFileReferences "/repo/evals/cases/suite.yaml" repoWorld) with
  | Ok errors => Some (map (fun e => (severity e, location e)) errors)
  | Throw _ => None
  end
  = Some [("warning", "evalcases[0].input_messages[1].content[2]");
          ("error", "evalcases[0].input_messages[1].content[3]");
          ("error", "evalcases[0].input_messages[1].content[4].value")].
Proof. by vm_compute. Qed.

Example buildPromptDocument_plain :
  buildPromptDocument (request "  What is 2 + 2?  " [] None) None None
  = "[[ ## user_query ## ]]" +:+ JsString.nl +:+ JsString.nl +:+ "What is 2 + 2?".
Proof. by vm_compute. Qed.

End FurtherExamples.
